(** * PaperSqueeze: the extraction reconciliation core

    A shallow embedding of the normalisation layer
    ([papersqueeze/utils/normalization.py]), the extraction models
    ([papersqueeze/models/extraction.py], [models/document.py]), the
    consistency factor of the confidence scorer
    ([papersqueeze/services/confidence.py]) and the merge strategy
    ([papersqueeze/services/merge.py]), followed by the properties the
    specification states about them; then the display helpers
    ([papersqueeze/utils/formatting.py]), the URL validator of the
    configuration ([papersqueeze/config/schema.py]) and the field
    normalisation and post-processing of the processors
    ([papersqueeze/processors/base.py], [processors/utilities.py]), with
    further properties read off the code.

    Conventions of the embedding.
    - A Python [str] is the list of its Unicode code points.  Character
      classes follow the Unicode database exactly for white space; decimal
      digits and case mapping are the ones of U+0000..U+00FF (code points
      above U+00FF are carried along as caseless non-digits).
    - A Python [float] is a binary64 primitive float; [int] is [Z].
    - A value of type [Any] that reaches the core is [None], a [str] or an
      [int] ([pyvalue]).
    - [Optional[str]] is [option str]; a function that returns [None] on
      failure returns [option].
    - An exception caught inside a function is an [option] threaded through
      the [try] block.
    - [decimal.Decimal], the builtin [float] and the percent format are
      embedded; [datetime.strptime] and [strftime], which depend on the
      locale and the platform, are an interface ([DateLib]).
    - Calls to the logger have no effect on results and are left out. *)

From Stdlib Require Import ZArith NArith List Bool Lia String Ascii.
From Stdlib Require Import DecimalString Floats.
From Stdlib Require DecimalN DecimalPos.
From stdpp Require Import gmap.

Import ListNotations.
Local Open Scope N_scope.
Set Warnings "-inexact-float".

(** ** Python strings *)

Module PyStr.

Abbreviation str := (list N).

(** A literal of the Basic Latin range. *)
Definition u (s : string) : str :=
  List.map N_of_ascii (list_ascii_of_string s).

(** [str.isspace] for one character: Unicode white space, as used by
    [str.strip()] and [str.split()] without arguments. *)
Definition isspace (c : N) : bool :=
  ((9 <=? c) && (c <=? 13)) || ((28 <=? c) && (c <=? 32))
  || (c =? 133) || (c =? 160) || (c =? 5760)
  || ((8192 <=? c) && (c <=? 8202))
  || (c =? 8232) || (c =? 8233) || (c =? 8239) || (c =? 8287)
  || (c =? 12288).

(** The class [\d] of the [re] module. *)
Definition isdigit (c : N) : bool := (48 <=? c) && (c <=? 57).

(** [str.lower] for one character. *)
Definition lower_char (c : N) : N :=
  if ((65 <=? c) && (c <=? 90))
     || ((192 <=? c) && (c <=? 222) && negb (c =? 215))
  then c + 32 else c.

Definition lower (s : str) : str := List.map lower_char s.

Fixpoint lstrip (s : str) : str :=
  match s with
  | c :: s' => if isspace c then lstrip s' else s
  | [] => []
  end.

Definition rstrip (s : str) : str := rev (lstrip (rev s)).

Definition strip (s : str) : str := rstrip (lstrip s).

(** [s.startswith(p)] *)
Fixpoint startswith (s p : str) : bool :=
  match p, s with
  | [], _ => true
  | _ :: _, [] => false
  | c :: p', d :: s' => (c =? d) && startswith s' p'
  end.

(** [s.replace(old, new)]: occurrences are taken left to right and do not
    overlap.  [skip] counts the characters of a match still to be dropped.
    ([old] is never empty in this program.) *)
Fixpoint replace_from (old new : str) (skip : nat) (s : str) : str :=
  match s with
  | [] => []
  | c :: s' =>
      match skip with
      | S k => replace_from old new k s'
      | O =>
          if startswith s old
          then new ++ replace_from old new (length old - 1) s'
          else c :: replace_from old new 0 s'
      end
  end.

Definition replace (s old new : str) : str := replace_from old new 0 s.

(** [s.rfind(sub)]: the highest index where [sub] starts, or -1. *)
Fixpoint rfind_from (sub : str) (i best : Z) (s : str) : Z :=
  match s with
  | [] => if startswith s sub then i else best
  | _ :: s' =>
      rfind_from sub (i + 1)%Z (if startswith s sub then i else best) s'
  end.

Definition rfind (s sub : str) : Z := rfind_from sub 0%Z (-1)%Z s.

(** [sub in s] *)
Fixpoint contains (s sub : str) : bool :=
  startswith s sub
  || match s with
     | [] => false
     | _ :: s' => contains s' sub
     end.

(** [s.split(sep)] for a non-empty separator; [cur] is the current piece,
    reversed. *)
Fixpoint split_from (sep : str) (skip : nat) (cur : str) (s : str)
  : list str :=
  match s with
  | [] => [rev cur]
  | c :: s' =>
      match skip with
      | S k => split_from sep k cur s'
      | O =>
          if startswith s sep
          then rev cur :: split_from sep (length sep - 1) [] s'
          else split_from sep 0 (c :: cur) s'
      end
  end.

Definition split (s sep : str) : list str := split_from sep 0 [] s.

(** [s.split()]: the maximal runs of non-space characters. *)
Fixpoint split_ws_from (cur : str) (s : str) : list str :=
  match s with
  | [] => match cur with [] => [] | _ => [rev cur] end
  | c :: s' =>
      if isspace c
      then match cur with
           | [] => split_ws_from [] s'
           | _ => rev cur :: split_ws_from [] s'
           end
      else split_ws_from (c :: cur) s'
  end.

Definition split_ws (s : str) : list str := split_ws_from [] s.

(** [sep.join(parts)] *)
Fixpoint join (sep : str) (parts : list str) : str :=
  match parts with
  | [] => []
  | [p] => p
  | p :: ps => p ++ sep ++ join sep ps
  end.

(** [s[:k]] for any integer [k]: a negative [k] counts from the end. *)
Definition slice_to (s : str) (k : Z) : str :=
  if (k <? 0)%Z
  then firstn (Z.to_nat (Z.of_nat (length s) + k)) s
  else firstn (Z.to_nat k) s.

Definition str_eqb (a b : str) : bool := bool_decide (a = b).

(** [a >= b] on strings: lexicographic on code points. *)
Fixpoint str_geb (a b : str) : bool :=
  match a, b with
  | _, [] => true
  | [], _ :: _ => false
  | x :: a', y :: b' =>
      if y <? x then true else if x <? y then false else str_geb a' b'
  end.

(** [str(n)] for a non-negative integer. *)
Definition str_of_N (n : N) : str := u (NilZero.string_of_uint (N.to_uint n)).

(** [str(n)] for an integer. *)
Definition str_of_Z (n : Z) : str :=
  if (n <? 0)%Z then 45 :: str_of_N (Z.abs_N n) else str_of_N (Z.abs_N n).

End PyStr.
Export PyStr.

(** ** Values of type [Any] *)

Inductive pyvalue :=
| VNone
| VStr (s : str)
| VInt (n : Z).

(** [str(value)] on a value that is not [None]; [str(None)] is never
    taken by the code. *)
Definition py_str (v : pyvalue) : str :=
  match v with
  | VNone => u "None"
  | VStr s => s
  | VInt n => str_of_Z n
  end.

(** Truth value of an [Optional[str]]. *)
Definition truthy (o : option str) : bool :=
  match o with
  | Some (_ :: _) => true
  | _ => false
  end.

(** [a or b] on [Optional[str]]. *)
Definition py_or (a b : option str) : option str :=
  if truthy a then a else b.

(** ** [decimal.Decimal]

    The finite decimals the amount normaliser builds.  Its argument is
    always a text over the digits, the period and the minus sign (what the
    clean-up pattern leaves, or [str] of an [int]), so the exponent and the
    special values of the full constructor never occur. *)

Record Decimal := mkDecimal {
  dec_sign : bool;   (* True for a leading minus, also on zero *)
  dec_coef : N;
  dec_exp : Z
}.

Fixpoint digits_value (acc : N) (s : str) : N :=
  match s with
  | [] => acc
  | c :: s' => digits_value (10 * acc + (c - 48)) s'
  end.

(** The longest prefix of digits, and what follows it. *)
Fixpoint span_digits (s : str) : str * str :=
  match s with
  | c :: s' =>
      if isdigit c
      then let (a, b) := span_digits s' in (c :: a, b)
      else ([], s)
  | [] => ([], [])
  end.

(** An optional sign. *)
Definition take_sign (s : str) : bool * str :=
  match s with
  | 45 :: r => (true, r)
  | 43 :: r => (false, r)
  | _ => (false, s)
  end.

(** [Decimal(text)]; [None] stands for [InvalidOperation]. *)
Definition Decimal_of_str (s : str) : option Decimal :=
  let (neg, body) := take_sign s in
  let (ip, rest) := span_digits body in
  match rest with
  | [] =>
      match ip with
      | [] => None
      | _ => Some (mkDecimal neg (digits_value 0 ip) 0)
      end
  | 46 :: fp =>
      if forallb isdigit fp && negb (Nat.eqb (length ip + length fp) 0)
      then Some (mkDecimal neg (digits_value 0 (ip ++ fp))
                           (- Z.of_nat (length fp)))
      else None
  | _ => None
  end.

(** The coefficient once the exponent is brought to [- places], rounding
    half to even (the default context's [ROUND_HALF_EVEN]). *)
Definition rescale (d : Decimal) (places : Z) : N :=
  let sh := (dec_exp d + places)%Z in
  if (0 <=? sh)%Z
  then dec_coef d * 10 ^ Z.to_N sh
  else
    let p := 10 ^ Z.to_N (- sh) in
    let q := dec_coef d / p in
    let r := dec_coef d mod p in
    match 2 * r ?= p with
    | Lt => q
    | Gt => q + 1
    | Eq => if N.even q then q else q + 1
    end.

(** [f"{d:.{places}f}"]; [None] stands for the [ValueError] of a format
    specification with a negative precision. *)
Definition format_f (d : Decimal) (places : Z) : option str :=
  if (places <? 0)%Z then None
  else
    let p := Z.to_nat places in
    let digs := str_of_N (rescale d places) in
    let padded := repeat 48 (p + 1 - length digs)%nat ++ digs in
    let cut := (length padded - p)%nat in
    Some ((if dec_sign d then [45] else [])
            ++ firstn cut padded
            ++ match p with
               | O => []
               | S _ => 46 :: skipn cut padded
               end).

(** ** Python floats *)

(** [min(a, b)] and [max(a, b)] of the builtins: the first argument stays
    unless the second is strictly smaller (greater). *)
Definition py_min (a b : float) : float := if (b <? a)%float then b else a.
Definition py_max (a b : float) : float := if (a <? b)%float then b else a.

(** [max(0.0, min(1.0, c))], the clamp of every [__post_init__]. *)
Definition clamp01 (c : float) : float := py_max 0%float (py_min 1%float c).

(** The binary64 number nearest to [(-1)^neg * m * 10^e10], ties to even. *)
Definition float_of_decimal (neg : bool) (m : N) (e10 : Z) : float :=
  match m with
  | N0 => if neg then neg_zero else zero
  | Npos p =>
      SF2Prim
        (if (0 <=? e10)%Z
         then binary_normalize prec emax
                (cond_Zopp neg (Zpos p * 10 ^ e10)) 0 false
         else SFdiv prec emax (S754_finite neg p 0)
                (S754_finite false (Z.to_pos (10 ^ (- e10))) 0))
  end.

(** [a / b] on non-negative integers with [b] not zero. *)
Definition int_truediv (a b : N) : float :=
  match a, b with
  | Npos p, Npos q =>
      SF2Prim (SFdiv prec emax (S754_finite false p 0) (S754_finite false q 0))
  | _, _ => zero
  end.

(** The builtin [float(text)]; [None] stands for [ValueError]. *)
Module PyFloat.

(** White space as the parser sees it once the text is brought to ASCII. *)
Definition to_ascii_space (c : N) : N :=
  if (127 <=? c) && isspace c then 32 else c.

Definition ascii_isspace (c : N) : bool :=
  ((9 <=? c) && (c <=? 13)) || (c =? 32).

Definition ascii_lower (c : N) : N :=
  if (65 <=? c) && (c <=? 90) then c + 32 else c.

(** An underscore is accepted between two digits only; they are dropped. *)
Fixpoint drop_underscores (prev : N) (s : str) : option str :=
  match s with
  | [] => if prev =? 95 then None else Some []
  | c :: s' =>
      if c =? 95
      then if isdigit prev then drop_underscores c s' else None
      else if (prev =? 95) && negb (isdigit c) then None
      else option_map (cons c) (drop_underscores c s')
  end.

Fixpoint lstrip_ascii (s : str) : str :=
  match s with
  | c :: s' => if ascii_isspace c then lstrip_ascii s' else s
  | [] => []
  end.

Definition parse_inf_or_nan (s : str) : option float :=
  let (neg, r) := take_sign s in
  let l := List.map ascii_lower r in
  if str_eqb l (u "inf") || str_eqb l (u "infinity")
  then Some (if neg then neg_infinity else infinity)
  else if str_eqb l (u "nan") then Some nan
  else None.

Definition parse_number (s : str) : option float :=
  let (neg, r) := take_sign s in
  let (ip, r1) := span_digits r in
  let (fp, r2) :=
    match r1 with
    | 46 :: t => span_digits t
    | _ => ([], r1)
    end in
  let m := digits_value 0 (ip ++ fp) in
  let e := (- Z.of_nat (length fp))%Z in
  match ip ++ fp with
  | [] => None
  | _ :: _ =>
      match r2 with
      | [] => Some (float_of_decimal neg m e)
      | c :: t =>
          if (c =? 101) || (c =? 69)
          then
            let (eneg, t1) := take_sign t in
            let (ed, t2) := span_digits t1 in
            match ed, t2 with
            | _ :: _, [] =>
                Some (float_of_decimal neg m
                        (cond_Zopp eneg (Z.of_N (digits_value 0 ed)) + e))
            | _, _ => None
            end
          else None
      end
  end.

Definition float_of_str (s : str) : option float :=
  match drop_underscores 0 (List.map to_ascii_space s) with
  | None => None
  | Some t =>
      let t := rev (lstrip_ascii (rev (lstrip_ascii t))) in
      match parse_inf_or_nan t with
      | Some x => Some x
      | None => parse_number t
      end
  end.

End PyFloat.

(** [f"{x:.0%}"]: the float product [x * 100], printed with no decimals
    (half to even on the exact binary value) and a percent sign. *)
Definition format_percent0 (x : float) : str :=
  match Prim2SF (x * 100)%float with
  | S754_nan => u "nan%"
  | S754_infinity s => if s then u "-inf%" else u "inf%"
  | S754_zero s => if s then u "-0%" else u "0%"
  | S754_finite s m e =>
      let n :=
        if (0 <=? e)%Z then Npos m * 2 ^ Z.to_N e
        else
          let p := 2 ^ Z.to_N (- e) in
          let q := Npos m / p in
          match 2 * (Npos m mod p) ?= p with
          | Lt => q
          | Gt => q + 1
          | Eq => if N.even q then q else q + 1
          end in
      (if s then [45] else []) ++ str_of_N n ++ [37]
  end.

(** ** [utils/normalization.py] *)

(** The standard library's [datetime.strptime] and [datetime.strftime]
    depend on the locale and the platform; the date normaliser is written
    against their interface.  [strptime text fmt] is [None] where the
    library raises [ValueError]. *)
Class DateLib := {
  datetime : Type;
  strptime : str -> str -> option datetime;
  strftime : datetime -> str -> str
}.

Definition DATE_FORMATS : list str :=
  [ u "%Y-%m-%d"; u "%d-%m-%Y"; u "%d/%m/%Y"; u "%d.%m.%Y"; u "%Y/%m/%d";
    u "%Y.%m.%d"; u "%d %b %Y"; u "%d %B %Y"; u "%B %d, %Y" ].

(** The euro sign, the dollar, the pound sign and three currency codes. *)
Definition CURRENCY_SYMBOLS : list str :=
  [ [8364]; u "$"; [163]; u "EUR"; u "USD"; u "GBP" ].

(** The characters [AMOUNT_CLEANUP_PATTERN] matches: everything but a
    digit, a comma, a period and a minus sign. *)
Definition AMOUNT_CLEANUP_PATTERN (c : N) : bool :=
  negb (isdigit c || (c =? 44) || (c =? 46) || (c =? 45)).

(** [pattern.sub("", s)] for a pattern that matches single characters. *)
Definition re_sub_empty (pattern : N -> bool) (s : str) : str :=
  List.filter (fun c => negb (pattern c)) s.

(** The first result of [f] over [l], as a loop that returns on success. *)
Fixpoint first_some {A B : Type} (f : A -> option B) (l : list A)
  : option B :=
  match l with
  | [] => None
  | x :: l' =>
      match f x with
      | Some y => Some y
      | None => first_some f l'
      end
  end.

(** [normalize_date(value, output_format)].  No [date] or [datetime]
    object is a [pyvalue], so the two [isinstance] branches for them are
    not taken. *)
Definition normalize_date `{DateLib} (value : pyvalue) (output_format : str)
  : option str :=
  match value with
  | VNone => None
  | _ =>
      let clean := strip (py_str value) in
      match clean with
      | [] => None
      | _ =>
          first_some
            (fun fmt =>
               option_map (fun parsed => strftime parsed output_format)
                          (strptime clean fmt))
            DATE_FORMATS
      end
  end.

(** Lines 121-135 of [normalize_amount]: the text left once currency
    symbols and foreign characters are removed. *)
Definition amount_text (value : str) : str :=
  let clean := strip value in
  match clean with
  | [] => []
  | _ =>
      let clean :=
        fold_left (fun acc symbol => replace acc symbol []) CURRENCY_SYMBOLS
                  clean in
      let clean := strip clean in
      re_sub_empty AMOUNT_CLEANUP_PATTERN clean
  end.

(** Lines 141-162 of [normalize_amount]: the separators are resolved and
    the text handed to [Decimal] is returned. *)
Definition resolve_separators (clean : str) : str :=
  let last_comma := rfind clean (u ",") in
  let last_period := rfind clean (u ".") in
  if (last_period <? last_comma)%Z
  then replace (replace clean (u ".") []) (u ",") (u ".")
  else if (last_comma <? last_period)%Z
  then replace clean (u ",") []
  else if contains clean (u ",") && negb (contains clean (u "."))
  then replace clean (u ",") []
  else if contains clean (u ".") && negb (contains clean (u ","))
  then
    let parts := split clean (u ".") in
    if Nat.eqb (length parts) 2 && Nat.eqb (length (nth 1 parts [])) 3
    then replace clean (u ".") []
    else clean
  else clean.

(** Lines 164-165 of [normalize_amount]: [Decimal(clean)] printed with
    [decimal_places] decimals, inside the [try] block. *)
Definition format_decimal (clean : str) (decimal_places : Z) : option str :=
  match Decimal_of_str clean with
  | Some result => format_f result decimal_places
  | None => None
  end.

(** [normalize_amount(value, decimal_places)] *)
Definition normalize_amount (value : pyvalue) (decimal_places : Z)
  : option str :=
  match value with
  | VNone => None
  | VInt n => format_decimal (str_of_Z n) decimal_places
  | VStr value =>
      match amount_text value with
      | [] => None
      | clean => format_decimal (resolve_separators clean) decimal_places
      end
  end.

(** [normalize_text(value, max_length)] *)
Definition normalize_text (value : pyvalue) (max_length : option Z)
  : option str :=
  match value with
  | VNone => None
  | _ =>
      let clean := join (u " ") (split_ws (py_str value)) in
      match clean with
      | [] => None
      | _ =>
          match max_length with
          | Some m =>
              if negb (m =? 0)%Z && (m <? Z.of_nat (length clean))%Z
              then Some (slice_to clean (m - 3) ++ u "...")
              else Some clean
          | None => Some clean
          end
      end
  end.

(** [is_empty_value(value)] *)
Definition is_empty_value (value : pyvalue) : bool :=
  match value with
  | VNone => true
  | VStr s => match strip s with [] => true | _ => false end
  | VInt _ => false
  end.

(** Equality of two [Optional[str]] results that are both present. *)
Definition opt_str_eqb (a b : option str) : bool := bool_decide (a = b).

(** [values_match(value1, value2, normalize)] *)
Definition values_match `{DateLib} (value1 value2 : pyvalue) (normalize : bool)
  : bool :=
  if is_empty_value value1 && is_empty_value value2 then true
  else if is_empty_value value1 || is_empty_value value2 then false
  else
    let as_text :=
      str_eqb (join (u " ") (split_ws (lower (py_str value1))))
              (join (u " ") (split_ws (lower (py_str value2)))) in
    if normalize
    then
      let norm1 := normalize_amount value1 2 in
      let norm2 := normalize_amount value2 2 in
      if truthy norm1 && truthy norm2 then opt_str_eqb norm1 norm2
      else
        let norm1 := normalize_date value1 (u "%Y-%m-%d") in
        let norm2 := normalize_date value2 (u "%Y-%m-%d") in
        if truthy norm1 && truthy norm2 then opt_str_eqb norm1 norm2
        else as_text
    else as_text.

(** ** [models/extraction.py] and [models/document.py] *)

Inductive FieldType := STRING | DATE | AMOUNT | NUMBER | INTEGER.

Record ExtractedField := mkExtractedField {
  name : str;
  raw_value : option str;
  normalized_value : option str;
  confidence : float;
  field_type : FieldType;
  extraction_notes : option str
}.

(** The constructor with its [__post_init__]. *)
Definition ExtractedField_init (name : str)
    (raw_value normalized_value : option str) (confidence : float)
    (field_type : FieldType) : ExtractedField :=
  mkExtractedField name raw_value normalized_value (clamp01 confidence)
                   field_type None.

(** [ExtractedField.has_value] *)
Definition has_value (f : ExtractedField) : bool :=
  match normalized_value f, raw_value f with
  | None, None => false
  | _, _ => true
  end.

(** [ExtractedField.best_value] *)
Definition best_value (f : ExtractedField) : option str :=
  py_or (normalized_value f) (raw_value f).

Record ExtractionResult := mkExtractionResult {
  template_id : str;
  template_confidence : float;
  fields : gmap str ExtractedField
}.

(** The constructor with its [__post_init__]. *)
Definition ExtractionResult_init (template_id : str)
    (template_confidence : float) (fields : gmap str ExtractedField)
  : ExtractionResult :=
  mkExtractionResult template_id (clamp01 template_confidence) fields.

(** [ExtractionResult.get_field] *)
Definition get_field (e : ExtractionResult) (name : str)
  : option ExtractedField :=
  fields e !! name.

Record ProposedChange := mkProposedChange {
  pc_field_name : str;
  current_value : pyvalue;
  proposed_value : pyvalue;
  pc_confidence : float;
  source : str;
  pc_reason : option str
}.

Record CustomFieldValue := mkCustomFieldValue {
  cf_field : Z;
  cf_field_name : option str;
  cf_value : pyvalue
}.

Record Document := mkDocument {
  doc_id : Z;
  title : str;
  content : str;
  custom_fields : list CustomFieldValue
}.

(** [Document.get_custom_field_value]: the value of the first custom field
    of that name. *)
Fixpoint lookup_custom_field (cfs : list CustomFieldValue) (field_name : str)
  : pyvalue :=
  match cfs with
  | [] => VNone
  | cf :: cfs' =>
      if bool_decide (cf_field_name cf = Some field_name)
      then cf_value cf
      else lookup_custom_field cfs' field_name
  end.

Definition get_custom_field_value (d : Document) (field_name : str)
  : pyvalue :=
  lookup_custom_field (custom_fields d) field_name.

(** ** [services/confidence.py] *)

Inductive ConfidenceFactor :=
| FIELD_COMPLETENESS
| FORMAT_VALIDITY
| CROSS_FIELD_CONSISTENCY
| TEMPLATE_MATCH_QUALITY
| REQUIRED_FIELDS_PRESENT.

Record ConfidenceScore := mkConfidenceScore {
  overall : float;
  field_scores : gmap str float;
  factor_scores : list (ConfidenceFactor * float);
  explanation : str
}.

(** [float(f.normalized_value or f.raw_value or 0)]; [None] stands for the
    [ValueError] of a text that is no number. *)
Definition float_of_field (f : ExtractedField) : option float :=
  match py_or (normalized_value f) (raw_value f) with
  | Some (c :: s) => PyFloat.float_of_str (c :: s)
  | _ => Some zero
  end.

(** The first check of [_score_consistency], on the counters
    [(checks_passed, checks_total)]. *)
Definition check_gross_net (e : ExtractionResult) (st : N * N) : N * N :=
  let '(checks_passed, checks_total) := st in
  match get_field e (u "total_gross"), get_field e (u "total_net") with
  | Some gross, Some net =>
      if has_value gross && has_value net
      then
        let checks_total := checks_total + 1 in
        match float_of_field gross with
        | Some gross_val =>
            match float_of_field net with
            | Some net_val =>
                if (net_val <=? gross_val)%float
                then (checks_passed + 1, checks_total)
                else (checks_passed, checks_total)
            | None => (checks_passed, checks_total)
            end
        | None => (checks_passed, checks_total)
        end
      else (checks_passed, checks_total)
  | _, _ => (checks_passed, checks_total)
  end.

(** The second check of [_score_consistency]. *)
Definition check_dates (e : ExtractionResult) (st : N * N) : N * N :=
  let '(checks_passed, checks_total) := st in
  match get_field e (u "issue_date"), get_field e (u "due_date") with
  | Some issue, Some due =>
      if has_value issue && has_value due
      then
        let checks_total := checks_total + 1 in
        let issue_val := py_or (normalized_value issue) (raw_value issue) in
        let due_val := py_or (normalized_value due) (raw_value due) in
        match issue_val, due_val with
        | Some (i :: iv), Some (d :: dv) =>
            if str_geb (d :: dv) (i :: iv)
            then (checks_passed + 1, checks_total)
            else (checks_passed, checks_total)
        | _, _ => (checks_passed, checks_total)
        end
      else (checks_passed, checks_total)
  | _, _ => (checks_passed, checks_total)
  end.

(** The counters at the end of [_score_consistency]. *)
Definition consistency_checks (e : ExtractionResult) : N * N :=
  check_dates e (check_gross_net e (0, 0)).

(** [ConfidenceScorer._score_consistency] *)
Definition _score_consistency (e : ExtractionResult) : float :=
  let '(checks_passed, checks_total) := consistency_checks e in
  if checks_total =? 0 then 1%float
  else int_truediv checks_passed checks_total.

(** ** [services/merge.py] *)

Inductive MergeDecision := KEEP_EXISTING | USE_AI | NEEDS_REVIEW | SKIP.

Definition MergeDecision_eqb (a b : MergeDecision) : bool :=
  match a, b with
  | KEEP_EXISTING, KEEP_EXISTING | USE_AI, USE_AI
  | NEEDS_REVIEW, NEEDS_REVIEW | SKIP, SKIP => true
  | _, _ => false
  end.

Record FieldMergeResult := mkFieldMergeResult {
  field_name : str;
  existing_value : pyvalue;
  ai_value : pyvalue;
  ai_confidence : float;
  decision : MergeDecision;
  final_value : pyvalue;
  reason : str
}.

(** [FieldMergeResult.is_change] and [is_auto_apply] *)
Definition is_change (r : FieldMergeResult) : bool :=
  MergeDecision_eqb (decision r) USE_AI
  || MergeDecision_eqb (decision r) NEEDS_REVIEW.

Definition is_auto_apply (r : FieldMergeResult) : bool :=
  MergeDecision_eqb (decision r) USE_AI.

Record MergeResult := mkMergeResult {
  field_results : list FieldMergeResult;
  auto_apply_changes : list ProposedChange;
  review_changes : list ProposedChange;
  kept_existing : list str
}.

(** [MergeResult.has_changes] and [MergeResult.needs_review] *)
Definition has_changes (m : MergeResult) : bool :=
  match auto_apply_changes m, review_changes m with
  | [], [] => false
  | _, _ => true
  end.

Definition needs_review (m : MergeResult) : bool :=
  match review_changes m with
  | [] => false
  | _ :: _ => true
  end.

Record MergeStrategy := mkMergeStrategy {
  auto_apply_threshold : float;
  suggestion_threshold : float
}.

(** [MergeStrategy()] with the default thresholds. *)
Definition MergeStrategy_default : MergeStrategy :=
  mkMergeStrategy 0.7 0.9.

(** [MergeStrategy.merge_field] *)
Definition merge_field `{DateLib} (self : MergeStrategy) (field_name : str)
    (existing_value ai_value : pyvalue) (ai_confidence : float)
  : FieldMergeResult :=
  let existing_empty := is_empty_value existing_value in
  let ai_empty := is_empty_value ai_value in
  let result := mkFieldMergeResult field_name existing_value ai_value
                                   ai_confidence in
  if existing_empty && ai_empty
  then result SKIP VNone (u "No value from either source")
  else if negb existing_empty && ai_empty
  then result KEEP_EXISTING existing_value (u "AI did not extract this field")
  else if existing_empty && negb ai_empty
  then
    if (auto_apply_threshold self <=? ai_confidence)%float
    then result USE_AI ai_value
           (u "Filling empty field (confidence: "
              ++ format_percent0 ai_confidence ++ u ")")
    else result NEEDS_REVIEW existing_value
           (u "Low confidence (" ++ format_percent0 ai_confidence
              ++ u "), needs review")
  else if values_match existing_value ai_value true
  then result KEEP_EXISTING existing_value (u "AI agrees with existing value")
  else if (suggestion_threshold self <=? ai_confidence)%float
  then result NEEDS_REVIEW existing_value
         (u "AI suggests different value (confidence: "
            ++ format_percent0 ai_confidence ++ u ")")
  else result KEEP_EXISTING existing_value
         (u "AI confidence too low to suggest change ("
            ++ format_percent0 ai_confidence ++ u ")").

(** The value of an [Optional[str]] as an [Any]. *)
Definition value_of (o : option str) : pyvalue :=
  match o with
  | Some s => VStr s
  | None => VNone
  end.

(** One pass of the loop of [merge_document], on the four lists built so
    far. *)
Definition merge_step `{DateLib} (self : MergeStrategy) (document : Document)
    (extraction : ExtractionResult) (acc : MergeResult) (item : str * str)
  : MergeResult :=
  let '(extracted_name, paperless_name) := item in
  match fields extraction !! extracted_name with
  | None => acc
  | Some ai_field =>
      let ai_value :=
        value_of (py_or (normalized_value ai_field) (raw_value ai_field)) in
      let ai_confidence := confidence ai_field in
      let existing_value := get_custom_field_value document paperless_name in
      let result :=
        merge_field self paperless_name existing_value ai_value
                    ai_confidence in
      let change :=
        mkProposedChange paperless_name existing_value ai_value ai_confidence
                         (u "ai") (Some (reason result)) in
      let field_results := field_results acc ++ [result] in
      match decision result with
      | USE_AI =>
          mkMergeResult field_results (auto_apply_changes acc ++ [change])
                        (review_changes acc) (kept_existing acc)
      | NEEDS_REVIEW =>
          mkMergeResult field_results (auto_apply_changes acc)
                        (review_changes acc ++ [change]) (kept_existing acc)
      | KEEP_EXISTING =>
          mkMergeResult field_results (auto_apply_changes acc)
                        (review_changes acc)
                        (kept_existing acc ++ [paperless_name])
      | SKIP =>
          mkMergeResult field_results (auto_apply_changes acc)
                        (review_changes acc) (kept_existing acc)
      end
  end.

(** [MergeStrategy.merge_document]; [field_mapping] is the dictionary's
    [items()], in insertion order. *)
Definition merge_document `{DateLib} (self : MergeStrategy)
    (document : Document) (extraction : ExtractionResult)
    (field_mapping : list (str * str)) (confidence : ConfidenceScore)
  : MergeResult :=
  fold_left (merge_step self document extraction) field_mapping
            (mkMergeResult [] [] [] []).

(** [MergeStrategy.merge_title] *)
Definition merge_title `{DateLib} (self : MergeStrategy)
    (existing_title proposed_title : str) (confidence : float)
  : FieldMergeResult :=
  let is_default_title :=
    startswith (lower existing_title) (u "document")
    || startswith (lower existing_title) (u "scan")
    || (length existing_title <? 10)%nat in
  let result := mkFieldMergeResult (u "title") (VStr existing_title)
                                   (VStr proposed_title) confidence in
  if is_default_title && (auto_apply_threshold self <=? confidence)%float
  then result USE_AI (VStr proposed_title)
         (u "Replacing default/auto-generated title")
  else if values_match (VStr existing_title) (VStr proposed_title) true
  then result KEEP_EXISTING (VStr existing_title)
         (u "AI agrees with existing title")
  else result NEEDS_REVIEW (VStr existing_title)
         (u "Title change requires review").

(** ** Further members of the models *)

(** [ExtractedField.is_confident] *)
Definition is_confident (f : ExtractedField) : bool :=
  (0.7 <=? confidence f)%float.

(** [ExtractionResult.get_field_value] and [get_field_confidence] *)
Definition get_field_value (e : ExtractionResult) (name : str)
  : option str :=
  match fields e !! name with
  | Some field => best_value field
  | None => None
  end.

Definition get_field_confidence (e : ExtractionResult) (name : str)
  : float :=
  match fields e !! name with
  | Some field => confidence field
  | None => 0%float
  end.

(** [a == b] on values: a text and an integer are never equal. *)
Definition pyvalue_eqb (a b : pyvalue) : bool :=
  match a, b with
  | VNone, VNone => true
  | VStr s, VStr t => str_eqb s t
  | VInt n, VInt m => (n =? m)%Z
  | _, _ => false
  end.

(** [ProposedChange.is_fill] and [ProposedChange.is_change] *)
Definition is_fill (c : ProposedChange) : bool :=
  match current_value c with
  | VNone => true
  | v => pyvalue_eqb v (VStr [])
  end.

Definition pc_is_change (c : ProposedChange) : bool :=
  negb (is_fill c) && negb (pyvalue_eqb (current_value c) (proposed_value c)).

(** The constructor of [ConfidenceScore] with its [__post_init__]. *)
Definition ConfidenceScore_init (overall : float)
    (field_scores : gmap str float)
    (factor_scores : list (ConfidenceFactor * float)) (explanation : str)
  : ConfidenceScore :=
  mkConfidenceScore (clamp01 overall) field_scores factor_scores explanation.

(** [ConfidenceScorer.is_confident_for_auto_apply] and
    [is_confident_for_suggestion] *)
Definition is_confident_for_auto_apply (score : ConfidenceScore)
    (threshold : float) : bool :=
  (threshold <=? overall score)%float.

Definition is_confident_for_suggestion (score : ConfidenceScore)
    (threshold : float) : bool :=
  (threshold <=? overall score)%float.

(** ** More of [utils/normalization.py] *)

(** [s.lstrip(chars)], [s.rstrip(chars)] and [s.strip(chars)] for the set
    of characters [chars] holds. *)
Fixpoint lstrip_by (chars : N -> bool) (s : str) : str :=
  match s with
  | c :: s' => if chars c then lstrip_by chars s' else s
  | [] => []
  end.

Definition rstrip_by (chars : N -> bool) (s : str) : str :=
  rev (lstrip_by chars (rev s)).

Definition strip_by (chars : N -> bool) (s : str) : str :=
  rstrip_by chars (lstrip_by chars s).

(** [re.sub(r"[^\d]", "", value)] *)
Definition digits_only (s : str) : str := List.filter isdigit s.

(** [normalize_nif(value)] *)
Definition normalize_nif (value : pyvalue) : option str :=
  match value with
  | VNone => None
  | _ =>
      let clean := digits_only (py_str value) in
      if Nat.eqb (length clean) 9 then Some clean
      else if Nat.eqb (length clean) 11 && startswith clean (u "351")
      then Some (skipn 3 clean)
      else None
  end.

(** [normalize_mb_reference(value)] *)
Definition normalize_mb_reference (value : pyvalue) : option str :=
  match value with
  | VNone => None
  | _ =>
      let clean := digits_only (py_str value) in
      if Nat.eqb (length clean) 9 || Nat.eqb (length clean) 15
      then Some clean
      else None
  end.

(** The unit suffixes of [normalize_number], in the order they are
    removed. *)
Definition NUMBER_UNITS : list str :=
  [ u "kwh"; u "kw"; u "w"; u "m3"; u "m2"; u "m"; u "kg"; u "g"; u "l";
    u "ml"; u "kva"; u "%" ].

(** The first part of [normalize_number] for a string: the text in lower
    case with the unit suffixes removed, as it is passed to
    [normalize_amount]. *)
Definition number_text (value : str) : str :=
  let clean := strip (lower value) in
  fold_left (fun acc unit => strip (replace acc unit [])) NUMBER_UNITS clean.

(** [normalize_number(value)]; no [float] is a [pyvalue], so the test for
    a float with an integral value is not taken. *)
Definition normalize_number (value : pyvalue) : option str :=
  match value with
  | VNone => None
  | VInt n => Some (str_of_Z n)
  | VStr value =>
      let clean := number_text value in
      match normalize_amount (VStr clean) 10 with
      | Some (c :: r) =>
          Some (rstrip_by (N.eqb 46) (rstrip_by (N.eqb 48) (c :: r)))
      | other => other
      end
  end.

(** ** [utils/formatting.py] *)

(** [truncate_text(text, max_length, ellipsis)] *)
Definition truncate_text (text : str) (max_length : Z) (ellipsis : str)
  : str :=
  if (Z.of_nat (length text) <=? max_length)%Z then text
  else slice_to text (max_length - Z.of_nat (length ellipsis)) ++ ellipsis.

(** [fill_char * n]: nothing for a count that is not positive. *)
Definition str_times (fill_char : str) (n : Z) : str :=
  List.concat (repeat fill_char (Z.to_nat n)).

(** [pad_right(text, width, fill_char)] and [pad_left] *)
Definition pad_right (text : str) (width : Z) (fill_char : str) : str :=
  if (width <=? Z.of_nat (length text))%Z then slice_to text width
  else text ++ str_times fill_char (width - Z.of_nat (length text)).

Definition pad_left (text : str) (width : Z) (fill_char : str) : str :=
  if (width <=? Z.of_nat (length text))%Z then slice_to text width
  else str_times fill_char (width - Z.of_nat (length text)) ++ text.

(** [format_amount_display(amount, currency)] and
    [format_metric_display(value, unit)] on a text, an integer or [None];
    the alignment flag of the first is not read by the code. *)
Definition format_amount_display (amount : pyvalue) (currency : str)
    (use_figure_space : bool) : str :=
  match amount with
  | VNone => u "-"
  | _ =>
      match strip (py_str amount) with
      | [] => u "-"
      | amount_str => amount_str ++ u " " ++ currency
      end
  end.

Definition format_metric_display (value : pyvalue) (unit : str) : str :=
  match value with
  | VNone => u "-"
  | _ =>
      match strip (py_str value) with
      | [] => u "-"
      | value_str => value_str ++ u " " ++ unit
      end
  end.

(** The characters of [invalid_chars], in its order: less-than,
    greater-than, colon, double quote, slash, backslash, vertical bar,
    question mark and asterisk. *)
Definition invalid_chars : str := [60; 62; 58; 34; 47; 92; 124; 63; 42].

(** [re.sub(r"-+", "-", s)]: every run of dashes becomes one dash. *)
Fixpoint collapse_dashes (s : str) : str :=
  match s with
  | [] => []
  | c :: s' =>
      if c =? 45
      then match s' with
           | d :: _ => if d =? 45 then collapse_dashes s'
                       else c :: collapse_dashes s'
           | [] => [c]
           end
      else c :: collapse_dashes s'
  end.

(** The set of [strip("- ")]. *)
Definition dash_or_space (c : N) : bool := (c =? 45) || (c =? 32).

(** [sanitize_filename(text, max_length)] *)
Definition sanitize_filename (text : str) (max_length : Z) : str :=
  let result :=
    fold_left (fun acc char => replace acc [char] (u "-")) invalid_chars
              text in
  let result := collapse_dashes result in
  let result := strip_by dash_or_space result in
  if (max_length <? Z.of_nat (length result))%Z
  then rstrip_by dash_or_space (slice_to result max_length)
  else result.

(** ** [config/schema.py] *)

(** [PaperlessConfig.normalize_url]: [v.rstrip("/")] *)
Definition normalize_url (v : str) : str := rstrip_by (N.eqb 47) v.

(** ** [processors/base.py] and [processors/utilities.py] *)

(** [int(x)] for a float: the integer towards zero; it raises
    [OverflowError] for an infinity and [ValueError] for a NaN. *)
Inductive int_result := IntOk (z : Z) | IntValueError | IntOverflowError.

Definition int_of_float (x : float) : int_result :=
  match Prim2SF x with
  | S754_zero _ => IntOk 0
  | S754_infinity _ => IntOverflowError
  | S754_nan => IntValueError
  | S754_finite s m e =>
      let magnitude :=
        if (0 <=? e)%Z then (Z.pos m * 2 ^ e)%Z
        else (Z.pos m / 2 ^ (- e))%Z in
      IntOk (if s then (- magnitude)%Z else magnitude)
  end.

(** The assignment [field.normalized_value = v]. *)
Definition set_normalized (field : ExtractedField) (v : option str)
  : ExtractedField :=
  mkExtractedField (name field) (raw_value field) v (confidence field)
                   (field_type field) (extraction_notes field).

(** [BaseProcessor.normalize_field(field)]; [None] stands for the
    [OverflowError] of [int(float(num))], which the [except ValueError]
    clause lets through. *)
Definition normalize_field `{DateLib} (field : ExtractedField)
  : option ExtractedField :=
  match raw_value field with
  | None => Some field
  | Some raw =>
      match field_type field with
      | DATE =>
          Some (set_normalized field
                  (normalize_date (VStr raw) (u "%Y-%m-%d")))
      | AMOUNT => Some (set_normalized field (normalize_amount (VStr raw) 2))
      | NUMBER => Some (set_normalized field (normalize_number (VStr raw)))
      | INTEGER =>
          let num := normalize_number (VStr raw) in
          match num with
          | Some (c :: r) =>
              match PyFloat.float_of_str (c :: r) with
              | Some x =>
                  match int_of_float x with
                  | IntOk z =>
                      Some (set_normalized field (Some (str_of_Z z)))
                  | IntValueError => Some (set_normalized field num)
                  | IntOverflowError => None
                  end
              | None => Some (set_normalized field num)
              end
          | _ => Some (set_normalized field None)
          end
      | STRING => Some (set_normalized field (normalize_text (VStr raw) None))
      end
  end.

(** The assignment [extraction.fields[key] = field], and the update of a
    field that the dictionary holds under [key]. *)
Definition set_field (extraction : ExtractionResult) (key : str)
    (field : ExtractedField) : ExtractionResult :=
  mkExtractionResult (template_id extraction)
                     (template_confidence extraction)
                     (<[key := field]> (fields extraction)).

(** The block the two utilities processors share: the normalised
    consumption is passed through [normalize_number] once more. *)
Definition clean_consumption (key : str) (extraction : ExtractionResult)
  : ExtractionResult :=
  match fields extraction !! key with
  | Some field =>
      match normalized_value field with
      | Some (c :: r) =>
          set_field extraction key
            (set_normalized field (normalize_number (VStr (c :: r))))
      | _ => extraction
      end
  | None => extraction
  end.

(** [UtilitiesEnergyProcessor.post_process(extraction, document)] *)
Definition energy_post_process (extraction : ExtractionResult)
    (document : Document) : ExtractionResult :=
  let extraction := clean_consumption (u "consumption_kwh") extraction in
  match fields extraction !! u "contract_power" with
  | Some field =>
      match raw_value field, normalized_value field with
      | Some (c :: r), Some (d :: n) =>
          if negb (contains (lower (c :: r)) (u "kva"))
          then set_field extraction (u "contract_power")
                 (set_normalized field (Some ((d :: n) ++ u " kVA")))
          else extraction
      | _, _ => extraction
      end
  | None => extraction
  end.

(** [UtilitiesWaterProcessor.post_process(extraction, document)] *)
Definition water_post_process (extraction : ExtractionResult)
    (document : Document) : ExtractionResult :=
  clean_consumption (u "consumption_vol") extraction.

(** ** Vocabulary of the specification *)

(** A text with every occurrence of one character removed: the separator
    is "stripped". *)
Definition drop_char (c : N) (s : str) : str :=
  List.filter (fun x => negb (c =? x)) s.

(** A text with one character written as another: the separator is "taken
    as the decimal point". *)
Definition map_char (c d : N) (s : str) : str :=
  List.map (fun x => if c =? x then d else x) s.

(** The comma and the period, the separators of an amount. *)
Definition is_separator (c : N) : bool := (c =? 44) || (c =? 46).

(** The separators of a text, in order. *)
Definition separators (s : str) : str := List.filter is_separator s.

(** The separator that occurs rightmost in a text, if it has one. *)
Fixpoint rightmost_separator (s : str) : option N :=
  match s with
  | [] => None
  | x :: s' =>
      match rightmost_separator s' with
      | Some y => Some y
      | None => if is_separator x then Some x else None
      end
  end.

(** The same amount in the other convention: commas and periods change
    places. *)
Definition swap_separator (c : N) : N :=
  if c =? 44 then 46 else if c =? 46 then 44 else c.

Definition other_convention (s : str) : str := List.map swap_separator s.

(** Both named fields are in the extraction and have a value. *)
Definition both_have_value (e : ExtractionResult) (a b : str) : bool :=
  match get_field e a, get_field e b with
  | Some x, Some y => has_value x && has_value y
  | _, _ => false
  end.

(** The check "gross is at least net": when it applies, and when it
    passes. *)
Definition gross_net_applicable (e : ExtractionResult) : bool :=
  both_have_value e (u "total_gross") (u "total_net").

Definition gross_net_passed (e : ExtractionResult) : bool :=
  gross_net_applicable e
  && match get_field e (u "total_gross"), get_field e (u "total_net") with
     | Some gross, Some net =>
         match float_of_field gross, float_of_field net with
         | Some gross_val, Some net_val => (net_val <=? gross_val)%float
         | _, _ => false
         end
     | _, _ => false
     end.

(** The check "the due date is not before the issue date". *)
Definition dates_applicable (e : ExtractionResult) : bool :=
  both_have_value e (u "issue_date") (u "due_date").

Definition dates_passed (e : ExtractionResult) : bool :=
  dates_applicable e
  && match get_field e (u "issue_date"), get_field e (u "due_date") with
     | Some issue, Some due =>
         match best_value issue, best_value due with
         | Some (i :: iv), Some (d :: dv) => str_geb (d :: dv) (i :: iv)
         | _, _ => false
         end
     | _, _ => false
     end.

Definition as_count (b : bool) : N := if b then 1 else 0.

Definition applicable_checks (e : ExtractionResult) : N :=
  as_count (gross_net_applicable e) + as_count (dates_applicable e).

Definition passed_checks (e : ExtractionResult) : N :=
  as_count (gross_net_passed e) + as_count (dates_passed e).

(** Section 4.3's table for one field, row by row: the decision and the
    final value. *)
Definition decision_table `{DateLib} (self : MergeStrategy)
    (existing ai : pyvalue) (ai_confidence : float)
  : MergeDecision * pyvalue :=
  match is_empty_value existing, is_empty_value ai with
  | true, true => (SKIP, VNone)
  | false, true => (KEEP_EXISTING, existing)
  | true, false =>
      if (auto_apply_threshold self <=? ai_confidence)%float
      then (USE_AI, ai)
      else (NEEDS_REVIEW, existing)
  | false, false =>
      if values_match existing ai true then (KEEP_EXISTING, existing)
      else if (suggestion_threshold self <=? ai_confidence)%float
      then (NEEDS_REVIEW, existing)
      else (KEEP_EXISTING, existing)
  end.

(** The title [t] starts with the lower-case word [w], whatever the case
    of its letters. *)
Definition starts_with_ci (t w : str) : Prop :=
  lower (firstn (length w) t) = w.

(** A default placeholder title. *)
Definition default_title (t : str) : Prop :=
  starts_with_ci t (u "document") \/ starts_with_ci t (u "scan")
  \/ (length t < 10)%nat.

(** The extracted name of a mapping entry is present in the extraction. *)
Definition present (extraction : ExtractionResult) (item : str * str)
  : bool :=
  match fields extraction !! fst item with
  | Some _ => true
  | None => false
  end.

(** The result of one mapping entry: the AI value is the normalised value
    or else the raw value, the existing value is looked up under the mapped
    name, and [merge_field] decides. *)
Definition entry_result `{DateLib} (self : MergeStrategy)
    (document : Document) (extraction : ExtractionResult)
    (item : str * str) : option FieldMergeResult :=
  match fields extraction !! fst item with
  | Some ai_field =>
      Some (merge_field self (snd item)
              (get_custom_field_value document (snd item))
              (value_of (best_value ai_field)) (confidence ai_field))
  | None => None
  end.

(** The results of the entries that have one, in the order of the
    mapping. *)
Fixpoint results_of `{DateLib} (self : MergeStrategy) (document : Document)
    (extraction : ExtractionResult) (field_mapping : list (str * str))
  : list FieldMergeResult :=
  match field_mapping with
  | [] => []
  | item :: rest =>
      match entry_result self document extraction item with
      | Some r => r :: results_of self document extraction rest
      | None => results_of self document extraction rest
      end
  end.

(** The change a field result proposes. *)
Definition change_of (r : FieldMergeResult) : ProposedChange :=
  mkProposedChange (field_name r) (existing_value r) (ai_value r)
                   (ai_confidence r) (u "ai") (Some (reason r)).

Definition has_decision (d : MergeDecision) (r : FieldMergeResult) : bool :=
  MergeDecision_eqb (decision r) d.

(** ** Printed numbers *)

(** The characters of a decimal numeral of the standard library, which
    [str_of_N] prints. *)
Fixpoint codes_of_uint (d : Decimal.uint) : str :=
  match d with
  | Decimal.Nil => []
  | Decimal.D0 d => 48 :: codes_of_uint d
  | Decimal.D1 d => 49 :: codes_of_uint d
  | Decimal.D2 d => 50 :: codes_of_uint d
  | Decimal.D3 d => 51 :: codes_of_uint d
  | Decimal.D4 d => 52 :: codes_of_uint d
  | Decimal.D5 d => 53 :: codes_of_uint d
  | Decimal.D6 d => 54 :: codes_of_uint d
  | Decimal.D7 d => 55 :: codes_of_uint d
  | Decimal.D8 d => 56 :: codes_of_uint d
  | Decimal.D9 d => 57 :: codes_of_uint d
  end.

(** A character of a printed amount: a digit, the period or the minus
    sign. *)
Definition printed_char (c : N) : bool := isdigit c || (c =? 46) || (c =? 45).

(** ** Sample data *)

(** A field whose only value is the empty string. *)
Definition empty_text_field : ExtractedField :=
  ExtractedField_init (u "invoice_number") (Some []) None 0.5 STRING.

(** An extraction whose gross total is no number. *)
Definition unreadable_gross : ExtractedField :=
  ExtractedField_init (u "total_gross") (Some (u "abc")) None 0.9 AMOUNT.

Definition net_100 : ExtractedField :=
  ExtractedField_init (u "total_net") (Some (u "100.00"))
                      (Some (u "100.00")) 0.9 AMOUNT.

Definition unreadable_extraction : ExtractionResult :=
  ExtractionResult_init (u "invoice") 0.9
    (insert (u "total_gross") unreadable_gross
       (insert (u "total_net") net_100 empty)).

(** A water invoice: the consumption as the extractor returns it, and the
    extraction that holds it once normalised. *)
Definition consumption_raw : ExtractedField :=
  ExtractedField_init (u "consumption") (Some (u "8 m3")) None 0.9 NUMBER.

Definition consumption_normalized : ExtractedField :=
  set_normalized consumption_raw (Some (u "8")).

Definition water_extraction : ExtractionResult :=
  ExtractionResult_init (u "utilities_water") 0.9
    (insert (u "consumption_vol") consumption_normalized
       (insert (u "consumption_kwh") consumption_normalized empty)).

Definition water_invoice : Document :=
  mkDocument 1 (u "scan_0001") (u "EPAL 8 m3") [].

(** A date library that parses nothing: it serves to run inputs that are
    settled before any date is parsed. *)
Definition no_dates : DateLib :=
  {| datetime := unit;
     strptime := fun _ _ => None;
     strftime := fun _ _ => [] |}.

(** * Properties *)

(** ** The unit tests of the repository

    The cases of [tests/unit/test_normalization.py] that involve no date,
    run on the embedding. *)

Example test_normalize_amount :
  normalize_amount (VStr (u "1.234,56")) 2 = Some (u "1234.56")
  /\ normalize_amount (VStr (u "1.234,56 " ++ [8364])) 2 = Some (u "1234.56")
  /\ normalize_amount (VStr ([8364] ++ u " 1.234,56")) 2 = Some (u "1234.56")
  /\ normalize_amount (VStr (u "1.234,56 EUR")) 2 = Some (u "1234.56")
  /\ normalize_amount (VStr (u "1,234.56")) 2 = Some (u "1234.56")
  /\ normalize_amount (VStr (u "123,45")) 2 = Some (u "123.45")
  /\ normalize_amount (VStr (u "123.45")) 2 = Some (u "123.45")
  /\ normalize_amount (VStr (u "1234")) 2 = Some (u "1234.00")
  /\ normalize_amount (VInt 1234) 2 = Some (u "1234.00")
  /\ normalize_amount (VStr (u "-123,45")) 2 = Some (u "-123.45")
  /\ normalize_amount VNone 2 = None
  /\ normalize_amount (VStr []) 2 = None
  /\ normalize_amount (VStr (u "   ")) 2 = None
  /\ normalize_amount (VStr (u "not a number")) 2 = None
  /\ normalize_amount (VStr (u "123.456789")) 4 = Some (u "123.4568").
Proof. repeat split. Qed.

Example test_normalize_text :
  normalize_text (VStr (u "  hello world  ")) None = Some (u "hello world")
  /\ normalize_text (VStr (u "hello    world")) None = Some (u "hello world")
  /\ normalize_text (VStr (u "hello" ++ [10; 10] ++ u "world")) None
     = Some (u "hello world")
  /\ normalize_text (VStr (u "hello world")) (Some 8%Z) = Some (u "hello...")
  /\ normalize_text VNone None = None
  /\ normalize_text (VStr []) None = None
  /\ normalize_text (VStr (u "   ")) None = None.
Proof. repeat split. Qed.

Example test_is_empty_value :
  is_empty_value VNone = true
  /\ is_empty_value (VStr []) = true
  /\ is_empty_value (VStr (u "   ")) = true
  /\ is_empty_value (VStr (u "hello")) = false
  /\ is_empty_value (VInt 0) = false
  /\ is_empty_value (VInt 123) = false.
Proof. repeat split. Qed.

Example test_values_match :
  @values_match no_dates VNone VNone true = true
  /\ @values_match no_dates (VStr []) (VStr []) true = true
  /\ @values_match no_dates VNone (VStr []) true = true
  /\ @values_match no_dates (VStr (u "hello")) VNone true = false
  /\ @values_match no_dates VNone (VStr (u "hello")) true = false
  /\ @values_match no_dates (VStr (u "123,45")) (VStr (u "123.45")) true = true
  /\ @values_match no_dates (VStr (u "1.234,56")) (VStr (u "1234.56")) true
     = true
  /\ @values_match no_dates (VStr (u "123.45")) (VStr (u "123.46")) true
     = false.
Proof. repeat split. Qed.

(** ** Strings with a one-character needle *)

Section OneCharacter.
Variable c : N.

Lemma startswith_char (s : str) :
  startswith s [c] = match s with x :: _ => c =? x | [] => false end.
Proof.
  destruct s as [|x s]; simpl; [reflexivity|].
  destruct s; apply andb_true_r.
Qed.

Lemma replace_char_delete (s : str) :
  replace s [c] [] = List.filter (fun x => negb (c =? x)) s.
Proof.
  unfold replace. induction s as [|x s IH]; [reflexivity|].
  cbn [replace_from List.filter]. rewrite startswith_char.
  destruct (c =? x); simpl; rewrite IH; reflexivity.
Qed.

Lemma replace_char_map (d : N) (s : str) :
  replace s [c] [d] = List.map (fun x => if c =? x then d else x) s.
Proof.
  unfold replace. induction s as [|x s IH]; [reflexivity|].
  cbn [replace_from List.map]. rewrite startswith_char.
  destruct (c =? x); simpl; rewrite IH; reflexivity.
Qed.

Lemma contains_char (s : str) : contains s [c] = existsb (N.eqb c) s.
Proof.
  induction s as [|x s IH]; [reflexivity|].
  cbn [contains existsb]. rewrite startswith_char, IH. reflexivity.
Qed.

Lemma rfind_from_absent (s : str) (i best : Z) :
  existsb (N.eqb c) s = false -> rfind_from [c] i best s = best.
Proof.
  revert i best. induction s as [|x s IH]; intros i best H; [reflexivity|].
  cbn [existsb] in H. apply orb_false_iff in H as [Hx Hs].
  cbn [rfind_from]. rewrite startswith_char, Hx. apply IH, Hs.
Qed.

(** When the character occurs, [rfind] is the index of an occurrence. *)
Lemma rfind_from_present (s : str) (i best : Z) :
  existsb (N.eqb c) s = true ->
  exists k : nat,
    rfind_from [c] i best s = (i + Z.of_nat k)%Z /\ nth_error s k = Some c.
Proof.
  revert i best. induction s as [|x s IH]; intros i best H; [discriminate|].
  cbn [rfind_from]. rewrite startswith_char.
  destruct (existsb (N.eqb c) s) eqn:Hs.
  - destruct (IH (i + 1)%Z (if c =? x then i else best) eq_refl)
      as (k & Hk & Hn).
    exists (S k). split; [rewrite Hk; lia | exact Hn].
  - rewrite (rfind_from_absent s _ _ Hs).
    cbn [existsb] in H. rewrite Hs, orb_false_r in H. rewrite H.
    exists 0%nat. apply N.eqb_eq in H. subst x. split; [lia | reflexivity].
Qed.

Lemma rfind_absent (s : str) :
  contains s [c] = false -> rfind s [c] = (-1)%Z.
Proof. rewrite contains_char. apply rfind_from_absent. Qed.

Lemma rfind_present (s : str) :
  contains s [c] = true ->
  exists k : nat, rfind s [c] = Z.of_nat k /\ nth_error s k = Some c.
Proof.
  rewrite contains_char. intros H.
  destruct (rfind_from_present s 0 (-1) H) as (k & Hk & Hn).
  exists k. split; [exact Hk | exact Hn].
Qed.

Lemma filter_absent (s : str) :
  contains s [c] = false -> List.filter (fun x => negb (c =? x)) s = s.
Proof.
  rewrite contains_char. induction s as [|x s IH]; [reflexivity|].
  cbn [existsb List.filter]. intros H.
  apply orb_false_iff in H as [Hx Hs]. rewrite Hx. simpl.
  rewrite (IH Hs). reflexivity.
Qed.
End OneCharacter.

Lemma startswith_firstn (s p : str) :
  startswith s p = true <-> firstn (length p) s = p.
Proof.
  revert s. induction p as [|c p IH]; intros s;
    [destruct s; split; reflexivity|].
  destruct s as [|d s]; cbn [startswith firstn length];
    [split; discriminate|].
  rewrite andb_true_iff, N.eqb_eq, IH. split.
  - intros [-> ->]. reflexivity.
  - intros [= -> E]. rewrite E. split; reflexivity.
Qed.

(** ** The separators of an amount *)

Lemma resolve_comma_rightmost (clean : str) :
  (rfind clean (u ".") <? rfind clean (u ","))%Z = true ->
  resolve_separators clean = map_char 44 46 (drop_char 46 clean).
Proof.
  intros H. unfold resolve_separators. rewrite H.
  change (u ".") with [46]. change (u ",") with [44].
  rewrite replace_char_delete, replace_char_map. reflexivity.
Qed.

Lemma resolve_period_rightmost (clean : str) :
  (rfind clean (u ",") <? rfind clean (u "."))%Z = true ->
  resolve_separators clean = drop_char 44 clean.
Proof.
  intros H. unfold resolve_separators. rewrite H.
  replace (rfind clean (u ".") <? rfind clean (u ","))%Z with false
    by (symmetry; apply Z.ltb_ge; apply Z.ltb_lt in H; lia).
  change (u ",") with [44]. apply replace_char_delete.
Qed.

(** A comma and a period never share their last position. *)
Lemma rfind_separators_differ (clean : str) :
  contains clean (u ",") = true ->
  contains clean (u ".") = true ->
  rfind clean (u ",") <> rfind clean (u ".").
Proof.
  change (u ".") with [46]; change (u ",") with [44]. intros Hc Hp.
  destruct (rfind_present 44 clean Hc) as (k & Hk & Hnk).
  destruct (rfind_present 46 clean Hp) as (j & Hj & Hnj).
  rewrite Hk, Hj. intros E. apply Nat2Z.inj in E. subst j.
  rewrite Hnk in Hnj. discriminate.
Qed.

(** X3.  The last branch of the separator analysis is entered only by a
    text with no separator at all, which it leaves as it is: its two inner
    cases, for commas alone and for one period before three digits, are
    never taken. *)
Lemma resolve_no_separator (clean : str) :
  (rfind clean (u ".") <? rfind clean (u ","))%Z = false ->
  (rfind clean (u ",") <? rfind clean (u "."))%Z = false ->
  contains clean (u ",") = false /\ contains clean (u ".") = false /\
  resolve_separators clean = clean.
Proof.
  intros H1 H2. unfold resolve_separators. rewrite H1, H2.
  apply Z.ltb_ge in H1, H2.
  assert (E : rfind clean (u ",") = rfind clean (u ".")) by lia.
  destruct (contains clean (u ",")) eqn:Hc, (contains clean (u ".")) eqn:Hp.
  - destruct (rfind_separators_differ clean Hc Hp E).
  - change (u ".") with [46] in *; change (u ",") with [44] in *.
    destruct (rfind_present 44 clean Hc) as (k & Hk & _).
    rewrite (rfind_absent 46 clean Hp) in E. lia.
  - change (u ".") with [46] in *; change (u ",") with [44] in *.
    destruct (rfind_present 46 clean Hp) as (k & Hk & _).
    rewrite (rfind_absent 44 clean Hc) in E. lia.
  - auto.
Qed.

(** [rfind] of the comma against [rfind] of the period tells the
    rightmost separator. *)
Lemma rfind_from_rightmost (s : str) (i bc bp : Z) :
  (bc < i)%Z -> (bp < i)%Z ->
  match rightmost_separator s with
  | Some y =>
      if y =? 44
      then Z.lt (rfind_from [46] i bp s) (rfind_from [44] i bc s)
      else Z.lt (rfind_from [44] i bc s) (rfind_from [46] i bp s)
  | None => rfind_from [44] i bc s = bc /\ rfind_from [46] i bp s = bp
  end.
Proof.
  revert i bc bp. induction s as [|x s IH]; intros i bc bp Hc Hp.
  - split; reflexivity.
  - cbn [rfind_from rightmost_separator]. rewrite !startswith_char.
    specialize (IH (i + 1)%Z (if 44 =? x then i else bc)
                   (if 46 =? x then i else bp)).
    assert (H1 : ((if (44 =? x)%N then i else bc) < i + 1)%Z)
      by (destruct (44 =? x); lia).
    assert (H2 : ((if (46 =? x)%N then i else bp) < i + 1)%Z)
      by (destruct (46 =? x); lia).
    specialize (IH H1 H2).
    destruct (rightmost_separator s) as [y|]; [exact IH|].
    destruct IH as [-> ->]. unfold is_separator.
    rewrite (N.eqb_sym x 44), (N.eqb_sym x 46).
    destruct (44 =? x) eqn:E44; cbn [orb].
    + apply N.eqb_eq in E44. subst x. cbn. exact Hp.
    + destruct (46 =? x) eqn:E46.
      * apply N.eqb_eq in E46. subst x. cbn. exact Hc.
      * split; reflexivity.
Qed.

Lemma rightmost_comma (s : str) :
  rightmost_separator s = Some 44 ->
  (rfind s (u ".") <? rfind s (u ","))%Z = true.
Proof.
  intros H. change (u ".") with [46]; change (u ",") with [44].
  pose proof (rfind_from_rightmost s 0 (-1) (-1) eq_refl eq_refl) as R.
  rewrite H in R. apply Z.ltb_lt. exact R.
Qed.

Lemma rightmost_period (s : str) :
  rightmost_separator s = Some 46 ->
  (rfind s (u ",") <? rfind s (u "."))%Z = true.
Proof.
  intros H. change (u ".") with [46]; change (u ",") with [44].
  pose proof (rfind_from_rightmost s 0 (-1) (-1) eq_refl eq_refl) as R.
  rewrite H in R. apply Z.ltb_lt. exact R.
Qed.

(** The rightmost separator is a separator, and there is one as soon as a
    separator occurs. *)
Lemma rightmost_separator_cases (s : str) :
  match rightmost_separator s with
  | Some y => y = 44 \/ y = 46
  | None => separators s = []
  end.
Proof.
  induction s as [|x s IH]; [reflexivity|].
  cbn [rightmost_separator separators List.filter].
  destruct (rightmost_separator s) as [y|]; [exact IH|].
  fold (separators s). rewrite IH. unfold is_separator.
  destruct (x =? 44) eqn:E44; cbn [orb].
  - left. apply N.eqb_eq, E44.
  - destruct (x =? 46) eqn:E46; [right; apply N.eqb_eq, E46 | reflexivity].
Qed.

Lemma rightmost_separator_of_separators (s : str) :
  rightmost_separator (separators s) = rightmost_separator s.
Proof.
  induction s as [|x s IH]; [reflexivity|].
  cbn [separators List.filter rightmost_separator]. fold (separators s).
  destruct (is_separator x) eqn:E.
  - cbn [rightmost_separator]. rewrite IH, E. reflexivity.
  - rewrite IH. destruct (rightmost_separator s); reflexivity.
Qed.

Lemma contains_of_separators (c : N) (s : str) :
  is_separator c = true -> contains (separators s) [c] = contains s [c].
Proof.
  intros Hc. rewrite !contains_char.
  induction s as [|x s IH]; [reflexivity|].
  cbn [separators List.filter existsb]. fold (separators s).
  destruct (is_separator x) eqn:E.
  - cbn [existsb]. rewrite IH. reflexivity.
  - rewrite IH. destruct (c =? x) eqn:Ecx; [|reflexivity].
    apply N.eqb_eq in Ecx. subst x. congruence.
Qed.

(** *** Cleaning an amount keeps its separators *)

Lemma separators_app (a b : str) :
  separators (a ++ b) = separators a ++ separators b.
Proof. apply List.filter_app. Qed.

Lemma separators_rev (s : str) : separators (rev s) = rev (separators s).
Proof.
  induction s as [|x s IH]; [reflexivity|].
  cbn [rev]. rewrite separators_app, IH.
  cbn [separators List.filter]. fold (separators s).
  destruct (is_separator x); cbn [rev app]; [reflexivity|].
  rewrite app_nil_r. reflexivity.
Qed.

Lemma space_is_no_separator (c : N) :
  isspace c = true -> is_separator c = false.
Proof.
  unfold is_separator. intros H.
  destruct (c =? 44) eqn:E44; [apply N.eqb_eq in E44; subst c; discriminate|].
  destruct (c =? 46) eqn:E46; [apply N.eqb_eq in E46; subst c; discriminate|].
  reflexivity.
Qed.

Lemma separators_lstrip (s : str) : separators (lstrip s) = separators s.
Proof.
  induction s as [|x s IH]; [reflexivity|].
  cbn [lstrip]. destruct (isspace x) eqn:E; [|reflexivity].
  cbn [separators List.filter]. rewrite (space_is_no_separator x E).
  exact IH.
Qed.

Lemma separators_strip (s : str) : separators (strip s) = separators s.
Proof.
  unfold strip, rstrip.
  rewrite separators_rev, separators_lstrip, separators_rev, rev_involutive.
  apply separators_lstrip.
Qed.

(** Removing a word that holds no separator removes no separator. *)
Lemma separators_replace_from (old : str) (s : str) (skip : nat) :
  old <> [] ->
  separators old = [] ->
  separators (firstn skip s) = [] ->
  separators (replace_from old [] skip s) = separators (skipn skip s).
Proof.
  intros Hold Hsep. revert skip.
  induction s as [|x s IH]; intros skip Hskip.
  - destruct skip; reflexivity.
  - destruct skip as [|k].
    + cbn [replace_from skipn].
      destruct (startswith (x :: s) old) eqn:E.
      * apply startswith_firstn in E.
        destruct old as [|o old]; [contradiction|].
        cbn [length firstn] in E. injection E as -> E.
        cbn [separators List.filter] in Hsep. fold (separators old) in Hsep.
        destruct (is_separator o) eqn:Eo; [discriminate|].
        cbn [length app]. rewrite Nat.sub_succ, Nat.sub_0_r.
        rewrite IH by (rewrite E; exact Hsep).
        cbn [separators List.filter]. rewrite Eo. fold (separators s).
        rewrite <- (firstn_skipn (length old) s) at 2.
        rewrite separators_app, E, Hsep. reflexivity.
      * cbn [separators List.filter]. fold (separators s).
        fold (separators (replace_from old [] 0 s)).
        rewrite (IH 0%nat eq_refl). reflexivity.
    + cbn [replace_from skipn]. cbn [firstn separators List.filter] in Hskip.
      fold (separators (firstn k s)) in Hskip.
      destruct (is_separator x); [discriminate|].
      apply IH, Hskip.
Qed.

Lemma separators_replace (old : str) (s : str) :
  old <> [] -> separators old = [] ->
  separators (replace s old []) = separators s.
Proof.
  intros Hold Hsep. unfold replace.
  apply (separators_replace_from old s 0 Hold Hsep eq_refl).
Qed.

Lemma separators_cleanup (s : str) :
  separators (re_sub_empty AMOUNT_CLEANUP_PATTERN s) = separators s.
Proof.
  unfold re_sub_empty.
  induction s as [|x s IH]; [reflexivity|].
  cbn [List.filter separators]. fold (separators s).
  destruct (is_separator x) eqn:E.
  - assert (K : AMOUNT_CLEANUP_PATTERN x = false).
    { unfold AMOUNT_CLEANUP_PATTERN. unfold is_separator in E.
      destruct (x =? 44), (x =? 46); try discriminate;
        rewrite ?orb_true_r; reflexivity. }
    rewrite K. cbn [negb separators List.filter]. rewrite E.
    fold (separators
            (List.filter (fun c => negb (AMOUNT_CLEANUP_PATTERN c)) s)).
    rewrite IH. reflexivity.
  - destruct (negb (AMOUNT_CLEANUP_PATTERN x)); [|exact IH].
    cbn [separators List.filter]. rewrite E. exact IH.
Qed.

Lemma separators_amount_text (value : str) :
  separators (amount_text value) = separators value.
Proof.
  unfold amount_text.
  rewrite <- (separators_strip value).
  destruct (strip value) as [|x clean]; [reflexivity|].
  rewrite separators_cleanup, separators_strip.
  unfold CURRENCY_SYMBOLS. cbn [fold_left].
  rewrite !separators_replace by (discriminate || reflexivity).
  reflexivity.
Qed.

Lemma contains_amount_text (c : N) (value : str) :
  is_separator c = true ->
  contains (amount_text value) [c] = contains value [c].
Proof.
  intros Hc.
  rewrite <- (contains_of_separators c (amount_text value) Hc).
  rewrite separators_amount_text. apply contains_of_separators, Hc.
Qed.

Lemma rightmost_separator_amount_text (value : str) :
  rightmost_separator (amount_text value) = rightmost_separator value.
Proof.
  rewrite <- (rightmost_separator_of_separators (amount_text value)).
  rewrite separators_amount_text. apply rightmost_separator_of_separators.
Qed.

Lemma normalize_amount_str (value : str) (decimal_places : Z) :
  amount_text value <> [] ->
  normalize_amount (VStr value) decimal_places =
  format_decimal (resolve_separators (amount_text value)) decimal_places.
Proof.
  intros H. unfold normalize_amount.
  destruct (amount_text value); [contradiction | reflexivity].
Qed.

Lemma contains_nonempty (s sub : str) :
  sub <> [] -> contains s sub = true -> s <> [].
Proof. intros Hsub H ->. destruct sub; [contradiction | discriminate]. Qed.

(** C4.  An amount that holds both a comma and a period has a rightmost
    separator, the comma or the period.  That one is taken as the decimal
    separator and every occurrence of the other one is stripped as a
    thousands separator: with the comma rightmost the periods are dropped
    and the comma is written as the decimal point of the number that is
    parsed; with the period rightmost the commas are dropped. *)
Theorem rightmost_separator_is_decimal (value : str) (decimal_places : Z) :
  contains value (u ",") = true ->
  contains value (u ".") = true ->
  let clean := amount_text value in
  (rightmost_separator value = Some 44
   /\ normalize_amount (VStr value) decimal_places
      = format_decimal (map_char 44 46 (drop_char 46 clean)) decimal_places)
  \/ (rightmost_separator value = Some 46
      /\ normalize_amount (VStr value) decimal_places
         = format_decimal (drop_char 44 clean) decimal_places).
Proof.
  intros Hc Hp clean.
  assert (Hne : amount_text value <> []).
  { apply (contains_nonempty _ [44]); [discriminate|].
    rewrite contains_amount_text by reflexivity. exact Hc. }
  rewrite (normalize_amount_str value decimal_places Hne). fold clean.
  pose proof (rightmost_separator_cases value) as Hr.
  pose proof (rightmost_separator_amount_text value) as Ha. fold clean in Ha.
  destruct (rightmost_separator value) as [y|].
  - destruct Hr as [-> | ->]; [left | right]; (split; [reflexivity|]).
    + rewrite (resolve_comma_rightmost clean (rightmost_comma clean Ha)).
      reflexivity.
    + rewrite (resolve_period_rightmost clean (rightmost_period clean Ha)).
      reflexivity.
  - exfalso. change (u ",") with [44] in Hc.
    rewrite <- (contains_of_separators 44 value eq_refl), Hr in Hc.
    discriminate.
Qed.

(** The European and the US writing of one amount give the same text. *)
Lemma rightmost_separator_examples :
  normalize_amount (VStr (u "1.234,56")) 2 = Some (u "1234.56") /\
  normalize_amount (VStr (u "1,234.56")) 2 = Some (u "1234.56").
Proof.
  split.
  - destruct (rightmost_separator_is_decimal (u "1.234,56") 2
                eq_refl eq_refl) as [[_ E] | [E _]];
      [rewrite E; reflexivity | discriminate E].
  - destruct (rightmost_separator_is_decimal (u "1,234.56") 2
                eq_refl eq_refl) as [[E _] | [_ E]];
      [discriminate E | rewrite E; reflexivity].
Defined.

(** C3, as the code has it.  In an amount whose only separators are
    commas, the comma is the decimal separator: every comma is written as
    a decimal point before the number is parsed. *)
Theorem commas_only_is_decimal (value : str) (decimal_places : Z) :
  contains value (u ",") = true ->
  contains value (u ".") = false ->
  normalize_amount (VStr value) decimal_places =
  format_decimal (map_char 44 46 (amount_text value)) decimal_places.
Proof.
  intros Hc Hp.
  change (u ",") with [44] in Hc. change (u ".") with [46] in Hp.
  rewrite <- (contains_amount_text 44 value eq_refl) in Hc.
  rewrite <- (contains_amount_text 46 value eq_refl) in Hp.
  rewrite normalize_amount_str
    by (apply (contains_nonempty _ [44]); [discriminate | exact Hc]).
  rewrite resolve_comma_rightmost.
  - unfold drop_char.
    rewrite (filter_absent 46 (amount_text value) Hp). reflexivity.
  - change (u ".") with [46]; change (u ",") with [44].
    destruct (rfind_present 44 (amount_text value) Hc) as (k & Hk & _).
    rewrite (rfind_absent 46 (amount_text value) Hp), Hk.
    apply Z.ltb_lt. lia.
Qed.

Lemma commas_only_example :
  normalize_amount (VStr (u "123,45")) 2 = Some (u "123.45").
Proof.
  rewrite (commas_only_is_decimal (u "123,45") 2 eq_refl eq_refl).
  reflexivity.
Defined.

(** C3, as the specification has it, fails: a comma alone yields a
    fractional part, and one period before three digits is a decimal
    point. *)
Lemma single_separator_counterexample :
  normalize_amount (VStr (u "1,234")) 2 = Some (u "1.23") /\
  normalize_amount (VStr (u "12.345")) 2 = Some (u "12.34") /\
  normalize_amount (VStr (u "12.345")) 2 <> Some (u "12345.00").
Proof. split; [reflexivity | split; [reflexivity | discriminate]]. Qed.

(** In an amount whose only separators are periods, the text is parsed as
    it stands, whatever the number of digits after a period. *)
Lemma periods_only_is_decimal (value : str) (decimal_places : Z) :
  contains value (u ",") = false ->
  contains value (u ".") = true ->
  normalize_amount (VStr value) decimal_places =
  format_decimal (amount_text value) decimal_places.
Proof.
  intros Hc Hp.
  change (u ",") with [44] in Hc. change (u ".") with [46] in Hp.
  rewrite <- (contains_amount_text 44 value eq_refl) in Hc.
  rewrite <- (contains_amount_text 46 value eq_refl) in Hp.
  rewrite normalize_amount_str
    by (apply (contains_nonempty _ [46]); [discriminate | exact Hp]).
  rewrite resolve_period_rightmost.
  - unfold drop_char.
    rewrite (filter_absent 44 (amount_text value) Hc). reflexivity.
  - change (u ".") with [46]; change (u ",") with [44].
    destruct (rfind_present 46 (amount_text value) Hp) as (k & Hk & _).
    rewrite (rfind_absent 44 (amount_text value) Hc), Hk.
    apply Z.ltb_lt. lia.
Qed.

(** *** The two conventions *)

Lemma swap_separator_fixes (c : N) :
  is_separator c = false -> swap_separator c = c.
Proof.
  unfold is_separator, swap_separator.
  destruct (c =? 44), (c =? 46); try discriminate; reflexivity.
Qed.

Lemma swap_separator_eqb (c x : N) :
  is_separator c = false -> (c =? swap_separator x) = (c =? x).
Proof.
  intros Hc. unfold swap_separator.
  destruct (x =? 44) eqn:E44; [|destruct (x =? 46) eqn:E46; [|reflexivity]].
  - apply N.eqb_eq in E44. subst x.
    destruct (c =? 46) eqn:E; [apply N.eqb_eq in E; subst c; discriminate|].
    destruct (c =? 44) eqn:E'; [apply N.eqb_eq in E'; subst c; discriminate|].
    reflexivity.
  - apply N.eqb_eq in E46. subst x.
    destruct (c =? 46) eqn:E; [apply N.eqb_eq in E; subst c; discriminate|].
    destruct (c =? 44) eqn:E'; [apply N.eqb_eq in E'; subst c; discriminate|].
    reflexivity.
Qed.

Lemma isspace_swap (x : N) : isspace (swap_separator x) = isspace x.
Proof.
  unfold swap_separator.
  destruct (x =? 44) eqn:E44; [apply N.eqb_eq in E44; subst x; reflexivity|].
  destruct (x =? 46) eqn:E46; [apply N.eqb_eq in E46; subst x; reflexivity|].
  reflexivity.
Qed.

Lemma cleanup_swap (x : N) :
  AMOUNT_CLEANUP_PATTERN (swap_separator x) = AMOUNT_CLEANUP_PATTERN x.
Proof.
  unfold swap_separator.
  destruct (x =? 44) eqn:E44; [apply N.eqb_eq in E44; subst x; reflexivity|].
  destruct (x =? 46) eqn:E46; [apply N.eqb_eq in E46; subst x; reflexivity|].
  reflexivity.
Qed.

Lemma lstrip_other_convention (s : str) :
  lstrip (other_convention s) = other_convention (lstrip s).
Proof.
  induction s as [|x s IH]; [reflexivity|].
  cbn [other_convention List.map lstrip]. rewrite isspace_swap.
  destruct (isspace x); [exact IH | reflexivity].
Qed.

Lemma rev_other_convention (s : str) :
  rev (other_convention s) = other_convention (rev s).
Proof. unfold other_convention. symmetry. apply map_rev. Qed.

Lemma strip_other_convention (s : str) :
  strip (other_convention s) = other_convention (strip s).
Proof.
  unfold strip, rstrip.
  rewrite lstrip_other_convention, rev_other_convention,
    lstrip_other_convention, rev_other_convention.
  reflexivity.
Qed.

Lemma startswith_other_convention (old s : str) :
  separators old = [] ->
  startswith (other_convention s) old = startswith s old.
Proof.
  revert s. induction old as [|o old IH]; intros s Hsep.
  - destruct s; reflexivity.
  - cbn [separators List.filter] in Hsep. fold (separators old) in Hsep.
    destruct (is_separator o) eqn:Eo; [discriminate|].
    destruct s as [|x s]; [reflexivity|].
    cbn [other_convention List.map startswith].
    rewrite (swap_separator_eqb o x Eo).
    change (List.map swap_separator s) with (other_convention s).
    rewrite (IH s Hsep). reflexivity.
Qed.

Lemma replace_other_convention (old s : str) (skip : nat) :
  separators old = [] ->
  replace_from old [] skip (other_convention s)
  = other_convention (replace_from old [] skip s).
Proof.
  intros Hsep. revert skip. induction s as [|x s IH]; intros skip;
    [reflexivity|].
  change (other_convention (x :: s))
    with (swap_separator x :: other_convention s).
  cbn [replace_from]. destruct skip as [|k]; [|apply IH].
  change (swap_separator x :: other_convention s)
    with (other_convention (x :: s)).
  rewrite (startswith_other_convention old (x :: s) Hsep).
  destruct (startswith (x :: s) old); cbn [app]; [apply IH|].
  cbn [other_convention List.map]. f_equal. apply IH.
Qed.

Lemma cleanup_other_convention (s : str) :
  re_sub_empty AMOUNT_CLEANUP_PATTERN (other_convention s)
  = other_convention (re_sub_empty AMOUNT_CLEANUP_PATTERN s).
Proof.
  unfold re_sub_empty. induction s as [|x s IH]; [reflexivity|].
  cbn [other_convention List.map List.filter]. rewrite cleanup_swap.
  destruct (negb (AMOUNT_CLEANUP_PATTERN x)); [|exact IH].
  cbn [List.map]. f_equal. exact IH.
Qed.

Lemma amount_text_other_convention (value : str) :
  amount_text (other_convention value) = other_convention (amount_text value).
Proof.
  unfold amount_text. rewrite strip_other_convention.
  destruct (strip value) as [|x clean]; [reflexivity|].
  change (other_convention (x :: clean))
    with (swap_separator x :: other_convention clean).
  cbv iota.
  change (swap_separator x :: other_convention clean)
    with (other_convention (x :: clean)).
  rewrite <- cleanup_other_convention, <- strip_other_convention.
  do 2 f_equal. unfold CURRENCY_SYMBOLS, replace. cbn [fold_left].
  rewrite !replace_other_convention by reflexivity. reflexivity.
Qed.

Lemma rightmost_separator_other_convention (s : str) :
  rightmost_separator (other_convention s)
  = option_map swap_separator (rightmost_separator s).
Proof.
  induction s as [|x s IH]; [reflexivity|].
  cbn [other_convention List.map rightmost_separator].
  change (List.map swap_separator s) with (other_convention s).
  rewrite IH. destruct (rightmost_separator s); [reflexivity|].
  cbn [option_map].
  destruct (x =? 44) eqn:E44; [apply N.eqb_eq in E44; subst x; reflexivity|].
  destruct (x =? 46) eqn:E46; [apply N.eqb_eq in E46; subst x; reflexivity|].
  unfold is_separator, swap_separator. rewrite E44, E46. cbn [orb].
  rewrite E44, E46. reflexivity.
Qed.

Lemma swap_separator_other (x : N) :
  x <> 44 -> x <> 46 ->
  swap_separator x = x /\ (44 =? x) = false /\ (46 =? x) = false.
Proof.
  intros N44 N46. unfold swap_separator.
  destruct (x =? 44) eqn:A; [apply N.eqb_eq in A; contradiction|].
  destruct (x =? 46) eqn:B; [apply N.eqb_eq in B; contradiction|].
  rewrite (N.eqb_sym 44 x), (N.eqb_sym 46 x), A, B. auto.
Qed.

Lemma comma_rightmost_other_convention (s : str) :
  drop_char 44 (other_convention s) = map_char 44 46 (drop_char 46 s).
Proof.
  induction s as [|x s IH]; [reflexivity|].
  unfold drop_char, map_char, other_convention in *.
  cbn [List.map List.filter].
  destruct (N.eq_dec x 44) as [-> | N44]; [cbn; f_equal; exact IH|].
  destruct (N.eq_dec x 46) as [-> | N46]; [cbn; exact IH|].
  destruct (swap_separator_other x N44 N46) as (-> & E44 & E46).
  rewrite E44, E46. cbn [negb List.map]. rewrite E44. f_equal. exact IH.
Qed.

Lemma period_rightmost_other_convention (s : str) :
  map_char 44 46 (drop_char 46 (other_convention s)) = drop_char 44 s.
Proof.
  induction s as [|x s IH]; [reflexivity|].
  unfold drop_char, map_char, other_convention in *.
  cbn [List.map List.filter].
  destruct (N.eq_dec x 44) as [-> | N44]; [cbn; exact IH|].
  destruct (N.eq_dec x 46) as [-> | N46]; [cbn; f_equal; exact IH|].
  destruct (swap_separator_other x N44 N46) as (-> & E44 & E46).
  rewrite E44, E46. cbn [negb List.map]. rewrite E44. f_equal. exact IH.
Qed.

Lemma other_convention_no_separator (s : str) :
  separators s = [] -> other_convention s = s.
Proof.
  induction s as [|x s IH]; [reflexivity|].
  cbn [separators List.filter]. fold (separators s).
  destruct (is_separator x) eqn:E; [discriminate|]. intros H.
  cbn [other_convention List.map].
  rewrite (swap_separator_fixes x E). f_equal. apply IH, H.
Qed.

Lemma resolve_other_convention (clean : str) :
  resolve_separators (other_convention clean) = resolve_separators clean.
Proof.
  pose proof (rightmost_separator_cases clean) as Hr.
  pose proof (rightmost_separator_other_convention clean) as Hs.
  destruct (rightmost_separator clean) as [y|] eqn:E.
  - destruct Hr as [-> | ->]; cbn in Hs.
    + rewrite (resolve_comma_rightmost clean (rightmost_comma clean E)).
      rewrite (resolve_period_rightmost _ (rightmost_period _ Hs)).
      apply comma_rightmost_other_convention.
    + rewrite (resolve_period_rightmost clean (rightmost_period clean E)).
      rewrite (resolve_comma_rightmost _ (rightmost_comma _ Hs)).
      apply period_rightmost_other_convention.
  - rewrite (other_convention_no_separator clean Hr). reflexivity.
Qed.

(** X1.  The separator convention is immaterial: an amount written with
    commas and periods exchanged normalises to the same result. *)
Theorem normalize_amount_other_convention (value : str)
    (decimal_places : Z) :
  normalize_amount (VStr (other_convention value)) decimal_places
  = normalize_amount (VStr value) decimal_places.
Proof.
  unfold normalize_amount. rewrite amount_text_other_convention.
  destruct (amount_text value) as [|x clean]; [reflexivity|].
  change (other_convention (x :: clean))
    with (swap_separator x :: other_convention clean).
  cbv iota.
  change (swap_separator x :: other_convention clean)
    with (other_convention (x :: clean)).
  rewrite resolve_other_convention. reflexivity.
Qed.

(** ** [normalize_text] *)

Lemma length_slice_to (s : str) (k : Z) :
  (0 <= k <= Z.of_nat (length s))%Z -> Z.of_nat (length (slice_to s k)) = k.
Proof.
  intros Hk. unfold slice_to.
  replace (k <? 0)%Z with false by (symmetry; apply Z.ltb_ge; lia).
  rewrite length_firstn. lia.
Qed.

(** X2.  From a limit of three characters on, the result respects the
    limit: a longer text is cut to [max_length - 3] characters plus the
    ellipsis. *)
Lemma normalize_text_within_limit (value : pyvalue) (max_length : Z)
    (result : str) :
  (3 <= max_length)%Z ->
  normalize_text value (Some max_length) = Some result ->
  (Z.of_nat (length result) <= max_length)%Z.
Proof.
  intros Hm. unfold normalize_text.
  destruct value as [|s|n]; [discriminate| |];
    match goal with
    | |- context [join ?a ?b] => generalize (join a b); intros clean
    end;
    (destruct clean as [|x clean]; [discriminate|]);
    replace (max_length =? 0)%Z with false by (symmetry; apply Z.eqb_neq; lia);
    cbn [negb andb];
    (destruct (max_length <? Z.of_nat (length (x :: clean)))%Z eqn:E;
     intros [= <-];
     [ apply Z.ltb_lt in E; rewrite length_app, Nat2Z.inj_add,
         length_slice_to by lia; change (Z.of_nat (length (u "..."))) with 3%Z;
       lia
     | apply Z.ltb_ge in E; exact E ]).
Qed.

(** C9.  Below a limit of three characters the bound fails: the text
    "abcd" under [max_length = 2] comes back as "abc...", six characters
    long, and a limit of zero cuts nothing. *)
Theorem normalize_text_exceeds_small_limit :
  normalize_text (VStr (u "abcd")) (Some 2%Z) = Some (u "abc...") /\
  (2 < length (u "abc..."))%nat /\
  normalize_text (VStr (u "abcd")) (Some 0%Z) = Some (u "abcd").
Proof. split; [reflexivity | split; [simpl; lia | reflexivity]]. Qed.

(** ** [ExtractedField.has_value] *)

(** C6, as the code has it.  A field has a value exactly when its
    normalised value or its raw value is not null; the text may be empty,
    so a field whose only value is the empty string has a value. *)
Theorem has_value_iff_not_null (f : ExtractedField) :
  (has_value f = true <->
   normalized_value f <> None \/ raw_value f <> None) /\
  (normalized_value f = None /\ raw_value f = Some [] ->
   has_value f = true).
Proof.
  unfold has_value. split.
  - destruct (normalized_value f), (raw_value f); split; intros H;
      try reflexivity; try discriminate;
      try (left; discriminate); try (right; discriminate).
    destruct H as [H|H]; contradiction.
  - intros [-> ->]. reflexivity.
Qed.

(** C6, as the specification has it, fails: neither value of
    [empty_text_field] is a non-empty text, and it has a value. *)
Lemma empty_text_has_value :
  has_value empty_text_field = true /\
  truthy (normalized_value empty_text_field) = false /\
  truthy (raw_value empty_text_field) = false.
Proof. split; [reflexivity | split; reflexivity]. Qed.

(** ** The consistency factor *)

Lemma check_gross_net_counts (e : ExtractionResult) (p t : N) :
  check_gross_net e (p, t) =
  (p + as_count (gross_net_passed e), t + as_count (gross_net_applicable e)).
Proof.
  unfold check_gross_net, gross_net_passed, gross_net_applicable,
    both_have_value.
  destruct (get_field e (u "total_gross")) as [gross|];
    [|simpl; f_equal; lia].
  destruct (get_field e (u "total_net")) as [net|];
    [|simpl; f_equal; lia].
  destruct (has_value gross && has_value net); [|simpl; f_equal; lia].
  destruct (float_of_field gross) as [gv|]; [|simpl; f_equal; lia].
  destruct (float_of_field net) as [nv|]; [|simpl; f_equal; lia].
  destruct (nv <=? gv)%float; simpl; f_equal; lia.
Qed.

Lemma check_dates_counts (e : ExtractionResult) (p t : N) :
  check_dates e (p, t) =
  (p + as_count (dates_passed e), t + as_count (dates_applicable e)).
Proof.
  unfold check_dates, dates_passed, dates_applicable, both_have_value,
    best_value.
  destruct (get_field e (u "issue_date")) as [issue|];
    [|simpl; f_equal; lia].
  destruct (get_field e (u "due_date")) as [due|];
    [|simpl; f_equal; lia].
  destruct (has_value issue && has_value due); [|simpl; f_equal; lia].
  destruct (py_or (normalized_value issue) (raw_value issue)) as [[|i iv]|];
    try (simpl; f_equal; lia).
  destruct (py_or (normalized_value due) (raw_value due)) as [[|d dv]|];
    try (simpl; f_equal; lia).
  destruct (str_geb (d :: dv) (i :: iv)); simpl; f_equal; lia.
Qed.

(** The counters are the passed and the applicable checks, and the factor
    is their quotient, or 1.0 when no check applies. *)
Lemma consistency_checks_counts (e : ExtractionResult) :
  consistency_checks e = (passed_checks e, applicable_checks e).
Proof.
  unfold consistency_checks, passed_checks, applicable_checks.
  rewrite check_gross_net_counts, check_dates_counts. reflexivity.
Qed.

Lemma score_consistency_quotient (e : ExtractionResult) :
  _score_consistency e =
  if applicable_checks e =? 0 then 1%float
  else int_truediv (passed_checks e) (applicable_checks e).
Proof.
  unfold _score_consistency. rewrite consistency_checks_counts. reflexivity.
Qed.

(** C5, as the code has it.  When total_gross and total_net are both
    present with values and one of them is no number, the check counts as
    applicable and does not pass; the factor is the number of passed checks
    divided by the number of applicable checks, and 1.0 when none
    applies. *)
Theorem parse_failure_fails_the_check (e : ExtractionResult)
    (gross net : ExtractedField) (checks_passed checks_total : N) :
  get_field e (u "total_gross") = Some gross ->
  get_field e (u "total_net") = Some net ->
  has_value gross = true ->
  has_value net = true ->
  float_of_field gross = None \/ float_of_field net = None ->
  check_gross_net e (checks_passed, checks_total)
    = (checks_passed, checks_total + 1) /\
  gross_net_applicable e = true /\
  gross_net_passed e = false /\
  consistency_checks e = (passed_checks e, applicable_checks e) /\
  _score_consistency e =
    (if applicable_checks e =? 0 then 1%float
     else int_truediv (passed_checks e) (applicable_checks e)).
Proof.
  intros Hg Hn Hvg Hvn Hfail.
  assert (Ha : gross_net_applicable e = true).
  { unfold gross_net_applicable, both_have_value.
    rewrite Hg, Hn, Hvg, Hvn. reflexivity. }
  assert (Hp : gross_net_passed e = false).
  { unfold gross_net_passed. rewrite Ha, Hg, Hn.
    destruct Hfail as [-> | ->]; [reflexivity|].
    destruct (float_of_field gross); reflexivity. }
  split.
  { rewrite check_gross_net_counts, Ha, Hp. simpl. f_equal. lia. }
  split; [exact Ha|]. split; [exact Hp|].
  split; [apply consistency_checks_counts | apply score_consistency_quotient].
Qed.

Lemma parse_failure_example :
  check_gross_net unreadable_extraction (0, 0) = (0, 0 + 1) /\
  gross_net_applicable unreadable_extraction = true /\
  gross_net_passed unreadable_extraction = false /\
  consistency_checks unreadable_extraction
    = (passed_checks unreadable_extraction,
       applicable_checks unreadable_extraction) /\
  _score_consistency unreadable_extraction =
    (if applicable_checks unreadable_extraction =? 0 then 1%float
     else int_truediv (passed_checks unreadable_extraction)
                      (applicable_checks unreadable_extraction)).
Proof.
  apply (parse_failure_fails_the_check unreadable_extraction
           unreadable_gross net_100 0 0);
    [ reflexivity | reflexivity | reflexivity | reflexivity
    | left; reflexivity ].
Defined.

(** C5, as the specification has it, fails: the gross total of
    [unreadable_extraction] is no number, its only check is counted as
    applicable, and the factor is 0.0, where a skipped check would leave
    no applicable check and a factor of 1.0. *)
Lemma parse_failure_is_not_skipped :
  float_of_field unreadable_gross = None /\
  dates_applicable unreadable_extraction = false /\
  consistency_checks unreadable_extraction = (0, 1) /\
  _score_consistency unreadable_extraction = 0%float.
Proof.
  split; [reflexivity|]. split; [reflexivity|].
  split; [reflexivity|]. reflexivity.
Qed.

(** ** [merge_field] *)

(** C1.  For every existing value, AI value and confidence, the decision
    and the final value of [merge_field] are those of the table of section
    4.3 read in order, and the final value is the existing value whenever
    the decision is KEEP_EXISTING or NEEDS_REVIEW; the inputs are carried
    into the result unchanged. *)
Theorem merge_field_follows_table `{DateLib} (self : MergeStrategy)
    (field_name' : str) (existing ai : pyvalue) (ai_confidence' : float) :
  let r := merge_field self field_name' existing ai ai_confidence' in
  (decision r, final_value r) = decision_table self existing ai ai_confidence'
  /\ (decision r = KEEP_EXISTING \/ decision r = NEEDS_REVIEW ->
      final_value r = existing)
  /\ (decision r = SKIP -> final_value r = VNone)
  /\ field_name r = field_name' /\ existing_value r = existing
  /\ ai_value r = ai /\ ai_confidence r = ai_confidence'.
Proof.
  unfold merge_field, decision_table.
  destruct (is_empty_value existing), (is_empty_value ai); cbn [andb negb];
    repeat match goal with
           | |- context [if ?b then _ else _] => destruct b
           end;
    cbn [decision final_value field_name existing_value ai_value
         ai_confidence];
    (split; [reflexivity|]);
    (split; [intros [E|E]; (reflexivity || discriminate E)|]);
    (split; [intros E; (reflexivity || discriminate E)|]);
    repeat split.
Qed.

(** C2.  An existing value that is not empty is never overwritten
    automatically: the decision is not USE_AI but KEEP_EXISTING or
    NEEDS_REVIEW, and the final value is the existing one, whatever the AI
    value and its confidence. *)
Theorem existing_value_never_auto_applied `{DateLib} (self : MergeStrategy)
    (field_name' : str) (existing ai : pyvalue) (ai_confidence' : float) :
  is_empty_value existing = false ->
  let r := merge_field self field_name' existing ai ai_confidence' in
  decision r <> USE_AI
  /\ (decision r = KEEP_EXISTING \/ decision r = NEEDS_REVIEW)
  /\ final_value r = existing.
Proof.
  intros Hne. unfold merge_field. rewrite Hne.
  destruct (is_empty_value ai); cbn [andb negb];
    repeat match goal with
           | |- context [if ?b then _ else _] => destruct b
           end;
    cbn [decision final_value];
    (split; [discriminate|]); (split; [auto | reflexivity]).
Qed.

Lemma existing_value_never_auto_applied_example :
  let r := @merge_field no_dates MergeStrategy_default (u "total")
             (VStr (u "100.00")) (VStr (u "200.00")) 0.95 in
  decision r <> USE_AI
  /\ (decision r = KEEP_EXISTING \/ decision r = NEEDS_REVIEW)
  /\ final_value r = VStr (u "100.00").
Proof.
  apply (@existing_value_never_auto_applied no_dates MergeStrategy_default
           (u "total") (VStr (u "100.00")) (VStr (u "200.00")) 0.95).
  reflexivity.
Defined.

(** The scenarios of the specification, with the default thresholds. *)
Example merge_field_scenarios :
  let merge := @merge_field no_dates MergeStrategy_default (u "x") in
  (decision (merge VNone (VStr (u "150.00")) 0.85%float) = USE_AI
   /\ final_value (merge VNone (VStr (u "150.00")) 0.85%float)
      = VStr (u "150.00"))
  /\ (decision (merge (VStr (u "100.00")) (VStr (u "100,00")) 0.95%float)
      = KEEP_EXISTING
      /\ final_value (merge (VStr (u "100.00")) (VStr (u "100,00")) 0.95%float)
         = VStr (u "100.00"))
  /\ (decision (merge (VStr (u "100.00")) (VStr (u "200.00")) 0.95%float)
      = NEEDS_REVIEW
      /\ final_value (merge (VStr (u "100.00")) (VStr (u "200.00")) 0.95%float)
         = VStr (u "100.00"))
  /\ reason (merge VNone (VStr (u "150.00")) 0.85%float)
     = u "Filling empty field (confidence: 85%)".
Proof. repeat split. Qed.

(** ** [merge_title] *)

Lemma startswith_lower (t w : str) :
  startswith (lower t) w = true <-> starts_with_ci t w.
Proof.
  unfold starts_with_ci, lower. rewrite startswith_firstn, firstn_map.
  reflexivity.
Qed.

(** The test the code makes is the placeholder test of the
    specification. *)
Lemma is_default_title_spec (t : str) :
  startswith (lower t) (u "document") || startswith (lower t) (u "scan")
  || (length t <? 10)%nat = true
  <-> default_title t.
Proof.
  unfold default_title.
  rewrite !orb_true_iff, !startswith_lower, Nat.ltb_lt. tauto.
Qed.

(** C7.  The title is replaced exactly when it is a default placeholder
    and the confidence reaches the auto-apply threshold, and the final
    value is then the proposed title; otherwise the title is kept when the
    two titles match, and otherwise the change goes to review, at every
    confidence: a title that is no placeholder is never replaced
    automatically. *)
Theorem merge_title_rule `{DateLib} (self : MergeStrategy)
    (existing_title proposed_title : str) (confidence' : float) :
  let r := merge_title self existing_title proposed_title confidence' in
  let replaced :=
    default_title existing_title
    /\ (auto_apply_threshold self <=? confidence')%float = true in
  let same :=
    values_match (VStr existing_title) (VStr proposed_title) true in
  (decision r = USE_AI <-> replaced)
  /\ (decision r = USE_AI -> final_value r = VStr proposed_title)
  /\ (decision r = KEEP_EXISTING <-> ~ replaced /\ same = true)
  /\ (decision r = NEEDS_REVIEW <-> ~ replaced /\ same = false)
  /\ (decision r <> USE_AI -> final_value r = VStr existing_title)
  /\ (~ default_title existing_title -> decision r <> USE_AI).
Proof.
  intros r replaced same. subst r replaced same. unfold merge_title.
  pose proof (is_default_title_spec existing_title) as Hd.
  destruct (startswith (lower existing_title) (u "document")
            || startswith (lower existing_title) (u "scan")
            || (length existing_title <? 10)%nat) eqn:Ed;
    destruct (auto_apply_threshold self <=? confidence')%float eqn:Ec;
    cbn [andb];
    try destruct (values_match (VStr existing_title) (VStr proposed_title)
                               true) eqn:Em;
    cbn [decision final_value];
    repeat match goal with
           | |- _ /\ _ => split
           | |- _ <-> _ => split
           end;
    try reflexivity; try discriminate; try tauto;
    try (intros; exfalso; intuition (discriminate || congruence));
    try (intros; split; [tauto | reflexivity]);
    try (intros; intuition (discriminate || congruence)).
Qed.

Example merge_title_scenario :
  decision (@merge_title no_dates MergeStrategy_default (u "Scan_2025-01-15")
              (u "2025-01-15 | Invoice | 123.45 EUR") 0.8) = USE_AI.
Proof. reflexivity. Qed.

(** ** [merge_document] *)

Lemma merge_field_carries_inputs `{DateLib} (self : MergeStrategy)
    (field_name' : str) (existing ai : pyvalue) (ai_confidence' : float) :
  let r := merge_field self field_name' existing ai ai_confidence' in
  field_name r = field_name' /\ existing_value r = existing
  /\ ai_value r = ai /\ ai_confidence r = ai_confidence'.
Proof.
  unfold merge_field.
  repeat match goal with
         | |- context [if ?b then _ else _] => destruct b
         end;
    repeat split.
Qed.

(** One pass of the loop appends the entry's result, if there is one, and
    files it under its decision. *)
Lemma merge_step_entry `{DateLib} (self : MergeStrategy) (document : Document)
    (extraction : ExtractionResult) (acc : MergeResult) (item : str * str) :
  merge_step self document extraction acc item =
  match entry_result self document extraction item with
  | None => acc
  | Some r =>
      mkMergeResult
        (field_results acc ++ [r])
        (auto_apply_changes acc
           ++ List.map change_of (List.filter (has_decision USE_AI) [r]))
        (review_changes acc
           ++ List.map change_of (List.filter (has_decision NEEDS_REVIEW) [r]))
        (kept_existing acc
           ++ List.map field_name
                (List.filter (has_decision KEEP_EXISTING) [r]))
  end.
Proof.
  destruct item as [extracted_name paperless_name].
  unfold merge_step, entry_result, best_value. cbn [fst snd].
  destruct (fields extraction !! extracted_name) as [ai_field|];
    [|reflexivity].
  match goal with
  | |- context [merge_field ?s ?n ?x ?a ?c] =>
      destruct (merge_field_carries_inputs s n x a c) as (Hn & Hx & Ha & Hc);
      set (r := merge_field s n x a c) in *
  end.
  unfold has_decision. cbn [List.filter].
  destruct (decision r); cbn [MergeDecision_eqb List.map]; unfold change_of;
    rewrite ?Hn, ?Hx, ?Ha, ?Hc, ?app_nil_r; reflexivity.
Qed.

Lemma merge_loop_results `{DateLib} (self : MergeStrategy)
    (document : Document) (extraction : ExtractionResult)
    (field_mapping : list (str * str)) (acc : MergeResult) :
  let rs := results_of self document extraction field_mapping in
  fold_left (merge_step self document extraction) field_mapping acc =
  mkMergeResult
    (field_results acc ++ rs)
    (auto_apply_changes acc
       ++ List.map change_of (List.filter (has_decision USE_AI) rs))
    (review_changes acc
       ++ List.map change_of (List.filter (has_decision NEEDS_REVIEW) rs))
    (kept_existing acc
       ++ List.map field_name (List.filter (has_decision KEEP_EXISTING) rs)).
Proof.
  revert acc. induction field_mapping as [|item rest IH]; intros acc.
  - cbn. rewrite !app_nil_r. destruct acc; reflexivity.
  - cbn [fold_left results_of]. rewrite IH, merge_step_entry.
    destruct (entry_result self document extraction item) as [r|];
      [|reflexivity].
    cbn [field_results auto_apply_changes review_changes kept_existing].
    cbn [List.filter]. rewrite <- !app_assoc.
    destruct (has_decision USE_AI r), (has_decision NEEDS_REVIEW r),
      (has_decision KEEP_EXISTING r); reflexivity.
Qed.

Lemma length_results_of `{DateLib} (self : MergeStrategy)
    (document : Document) (extraction : ExtractionResult)
    (field_mapping : list (str * str)) :
  length (results_of self document extraction field_mapping)
  = length (List.filter (present extraction) field_mapping).
Proof.
  induction field_mapping as [|item rest IH]; [reflexivity|].
  cbn [results_of List.filter]. unfold entry_result, present.
  destruct (fields extraction !! fst item); cbn [length]; rewrite IH;
    reflexivity.
Qed.

(** Every result carries the confidence of the extracted field it comes
    from. *)
Lemma results_of_confidence `{DateLib} (self : MergeStrategy)
    (document : Document) (extraction : ExtractionResult)
    (field_mapping : list (str * str)) :
  Forall
    (fun r =>
       exists item ai_field,
         In item field_mapping
         /\ fields extraction !! fst item = Some ai_field
         /\ ai_confidence r = confidence ai_field)
    (results_of self document extraction field_mapping).
Proof.
  induction field_mapping as [|item rest IH]; [constructor|].
  cbn [results_of].
  assert (Hrest : Forall
    (fun r =>
       exists item' ai_field,
         In item' (item :: rest)
         /\ fields extraction !! fst item' = Some ai_field
         /\ ai_confidence r = confidence ai_field)
    (results_of self document extraction rest)).
  { eapply List.Forall_impl; [|exact IH].
    intros r (item' & f & Hin & Hf & Hc). exists item', f.
    split; [right; exact Hin | split; assumption]. }
  unfold entry_result.
  destruct (fields extraction !! fst item) as [ai_field|] eqn:E;
    [|exact Hrest].
  constructor; [|exact Hrest].
  exists item, ai_field. split; [left; reflexivity|]. split; [exact E|].
  apply merge_field_carries_inputs.
Qed.

(** C8.  The field results are the results of the mapping entries whose
    extracted name is present in the extraction, one for each and in
    order, and none for an absent entry; the auto-apply changes are the
    changes of the results decided USE_AI, the review changes those of the
    results decided NEEDS_REVIEW, the kept names those of the results
    decided KEEP_EXISTING, so that a SKIP result is in none of the three;
    and review is needed exactly when the review changes are not empty. *)
Theorem merge_document_partitions `{DateLib} (self : MergeStrategy)
    (document : Document) (extraction : ExtractionResult)
    (field_mapping : list (str * str)) (confidence' : ConfidenceScore) :
  let m := merge_document self document extraction field_mapping confidence' in
  field_results m = results_of self document extraction field_mapping
  /\ length (field_results m)
     = length (List.filter (present extraction) field_mapping)
  /\ auto_apply_changes m
     = List.map change_of (List.filter (has_decision USE_AI) (field_results m))
  /\ review_changes m
     = List.map change_of
         (List.filter (has_decision NEEDS_REVIEW) (field_results m))
  /\ kept_existing m
     = List.map field_name
         (List.filter (has_decision KEEP_EXISTING) (field_results m))
  /\ (length (auto_apply_changes m) + length (review_changes m)
      + length (kept_existing m)
      + length (List.filter (has_decision SKIP) (field_results m))
      = length (field_results m))%nat
  /\ (needs_review m = true <-> review_changes m <> []).
Proof.
  intros m. subst m. unfold merge_document. rewrite merge_loop_results.
  cbn [field_results auto_apply_changes review_changes kept_existing app].
  split; [reflexivity|]. split; [apply length_results_of|].
  split; [reflexivity|]. split; [reflexivity|]. split; [reflexivity|].
  split.
  - rewrite !length_map.
    generalize (results_of self document extraction field_mapping).
    intros rs. induction rs as [|r rs IH]; [reflexivity|].
    cbn [List.filter].
    change (has_decision USE_AI r)
      with (MergeDecision_eqb (decision r) USE_AI).
    change (has_decision NEEDS_REVIEW r)
      with (MergeDecision_eqb (decision r) NEEDS_REVIEW).
    change (has_decision KEEP_EXISTING r)
      with (MergeDecision_eqb (decision r) KEEP_EXISTING).
    change (has_decision SKIP r) with (MergeDecision_eqb (decision r) SKIP).
    destruct (decision r); cbn [MergeDecision_eqb length]; lia.
  - unfold needs_review. cbn [review_changes].
    destruct (List.map change_of _); split; intros E;
      try discriminate; try reflexivity; contradiction.
Qed.

(** C10.  The confidence score handed to [merge_document] has no part in
    its result: two scores give the same result, and the confidence every
    field result is decided on is that of its extracted field. *)
Theorem merge_document_ignores_score `{DateLib} (self : MergeStrategy)
    (document : Document) (extraction : ExtractionResult)
    (field_mapping : list (str * str)) (c1 c2 : ConfidenceScore) :
  merge_document self document extraction field_mapping c1
  = merge_document self document extraction field_mapping c2
  /\ Forall
       (fun r =>
          exists item ai_field,
            In item field_mapping
            /\ fields extraction !! fst item = Some ai_field
            /\ ai_confidence r = confidence ai_field)
       (field_results
          (merge_document self document extraction field_mapping c1)).
Proof.
  split; [reflexivity|].
  unfold merge_document. rewrite merge_loop_results.
  cbn [field_results app]. apply results_of_confidence.
Qed.

(** ** Further properties of the normalisation layer *)

Lemma normalize_text_within_limit_example :
  (Z.of_nat (length (u "hello...")) <= 8)%Z.
Proof.
  apply (normalize_text_within_limit (VStr (u "hello world")) 8 (u "hello..."));
    [lia | reflexivity].
Defined.

Lemma resolve_no_separator_example :
  contains (u "1234") (u ",") = false /\ contains (u "1234") (u ".") = false
  /\ resolve_separators (u "1234") = u "1234".
Proof.
  apply (resolve_no_separator (u "1234")); reflexivity.
Defined.

(** X4.  [values_match] does not depend on the order of its arguments. *)
Theorem values_match_symmetric `{DateLib} (value1 value2 : pyvalue)
    (normalize : bool) :
  values_match value1 value2 normalize = values_match value2 value1 normalize.
Proof.
  unfold values_match, opt_str_eqb, str_eqb.
  rewrite (andb_comm (is_empty_value value2)),
    (orb_comm (is_empty_value value2)),
    (andb_comm (truthy (normalize_amount value2 2))),
    (andb_comm (truthy (normalize_date value2 (u "%Y-%m-%d")))).
  repeat match goal with
         | |- context [if ?b then _ else _] => destruct b
         end;
    try reflexivity;
    apply bool_decide_ext; split; intros E; symmetry; exact E.
Qed.

(** * Further properties of the code *)

(** ** Matching a value with itself *)

Lemma bool_decide_refl {A : Type} `{EqDecision A} (x : A) :
  bool_decide (x = x) = true.
Proof. apply bool_decide_eq_true. reflexivity. Qed.

(** X5.  Every value matches itself, with or without normalisation. *)
Theorem values_match_reflexive `{DateLib} (value : pyvalue)
    (normalize : bool) :
  values_match value value normalize = true.
Proof.
  unfold values_match, opt_str_eqb, str_eqb.
  destruct (is_empty_value value); [reflexivity|]. cbn [andb orb].
  repeat match goal with
         | |- context [if ?b then _ else _] => destruct b
         end;
    apply bool_decide_refl.
Qed.

Lemma values_match_same `{DateLib} (value : pyvalue) (normalize : bool) :
  values_match value value normalize = true.
Proof.
  unfold values_match, opt_str_eqb, str_eqb.
  destruct (is_empty_value value); [reflexivity|]. cbn [andb orb].
  repeat match goal with
         | |- context [if ?b then _ else _] => destruct b
         end;
    apply bool_decide_refl.
Qed.

(** X6.  When the AI value is the existing value, no change is proposed
    at any confidence: the field is kept, or skipped when the value is
    empty. *)
Theorem merge_field_same_value `{DateLib} (self : MergeStrategy)
    (field_name' : str) (value : pyvalue) (ai_confidence' : float) :
  let r := merge_field self field_name' value value ai_confidence' in
  is_change r = false
  /\ decision r = (if is_empty_value value then SKIP else KEEP_EXISTING).
Proof.
  unfold merge_field, is_change.
  rewrite (values_match_same value true).
  destruct (is_empty_value value); cbn [andb negb decision];
    split; reflexivity.
Qed.

(** ** What [merge_document] proposes *)

(** The three ways to a decision other than keeping or skipping. *)
Lemma merge_field_change_cases `{DateLib} (self : MergeStrategy)
    (field_name' : str) (existing ai : pyvalue) (ai_confidence' : float) :
  let r := merge_field self field_name' existing ai ai_confidence' in
  match decision r with
  | USE_AI =>
      is_empty_value existing = true /\ is_empty_value ai = false
      /\ (auto_apply_threshold self <=? ai_confidence')%float = true
  | NEEDS_REVIEW =>
      is_empty_value ai = false
      /\ ((is_empty_value existing = true
           /\ (auto_apply_threshold self <=? ai_confidence')%float = false)
          \/ (is_empty_value existing = false
              /\ values_match existing ai true = false
              /\ (suggestion_threshold self <=? ai_confidence')%float = true))
  | KEEP_EXISTING => is_empty_value existing = false
  | SKIP => is_empty_value existing = true /\ is_empty_value ai = true
  end.
Proof.
  unfold merge_field.
  destruct (is_empty_value existing), (is_empty_value ai); cbn [andb negb];
    repeat match goal with
           | |- context [if ?b then _ else _] => destruct b eqn:?
           end;
    cbn [decision]; auto.
Qed.

Lemma results_of_are_merges `{DateLib} (self : MergeStrategy)
    (document : Document) (extraction : ExtractionResult)
    (field_mapping : list (str * str)) :
  Forall
    (fun r =>
       r = merge_field self (field_name r) (existing_value r) (ai_value r)
                       (ai_confidence r))
    (results_of self document extraction field_mapping).
Proof.
  induction field_mapping as [|item rest IH]; [constructor|].
  cbn [results_of]. unfold entry_result.
  destruct (fields extraction !! fst item) as [ai_field|]; [|exact IH].
  constructor; [|exact IH].
  match goal with
  | |- ?r = _ =>
      match r with
      | merge_field ?s ?n ?x ?a ?c =>
          destruct (merge_field_carries_inputs s n x a c)
            as (Hn & Hx & Ha & Hc)
      end
  end.
  cbv zeta in Hn, Hx, Ha, Hc. rewrite Hn, Hx, Ha, Hc. reflexivity.
Qed.

Lemma Forall_map_filter {A B : Type} (P : B -> Prop) (Q : A -> Prop)
    (f : A -> B) (p : A -> bool) (l : list A) :
  Forall Q l ->
  (forall x, Q x -> p x = true -> P (f x)) ->
  Forall P (List.map f (List.filter p l)).
Proof.
  intros HQ Hstep. induction HQ as [|x l Hx _ IH]; [constructor|].
  cbn [List.filter]. destruct (p x) eqn:E; [|exact IH].
  cbn [List.map]. constructor; [apply Hstep; assumption | exact IH].
Qed.

(** X7.  [merge_document] auto-applies only to fill a gap: every
    auto-apply change has an empty current value, a proposed value that is
    not empty and a confidence that reaches the auto-apply threshold.
    Every review change proposes a value that is not empty, either for an
    empty field below that threshold or against a different existing value
    at or above the suggestion threshold; every kept name has an existing
    value. *)
Theorem merge_document_changes `{DateLib} (self : MergeStrategy)
    (document : Document) (extraction : ExtractionResult)
    (field_mapping : list (str * str)) (confidence' : ConfidenceScore) :
  let m := merge_document self document extraction field_mapping confidence' in
  Forall
    (fun c =>
       is_empty_value (current_value c) = true
       /\ is_empty_value (proposed_value c) = false
       /\ (auto_apply_threshold self <=? pc_confidence c)%float = true)
    (auto_apply_changes m)
  /\ Forall
       (fun c =>
          is_empty_value (proposed_value c) = false
          /\ ((is_empty_value (current_value c) = true
               /\ (auto_apply_threshold self <=? pc_confidence c)%float
                  = false)
              \/ (is_empty_value (current_value c) = false
                  /\ values_match (current_value c) (proposed_value c) true
                     = false
                  /\ (suggestion_threshold self <=? pc_confidence c)%float
                     = true)))
       (review_changes m)
  /\ Forall
       (fun n =>
          is_empty_value (get_custom_field_value document n) = false)
       (kept_existing m).
Proof.
  intros m. subst m. unfold merge_document. rewrite merge_loop_results.
  cbn [field_results auto_apply_changes review_changes kept_existing app].
  pose proof (results_of_are_merges self document extraction field_mapping)
    as Hm.
  split; [|split].
  - eapply Forall_map_filter; [exact Hm|].
    intros r Hr Hd. unfold has_decision in Hd.
    pose proof (merge_field_change_cases self (field_name r)
                  (existing_value r) (ai_value r) (ai_confidence r)) as Hc.
    cbv zeta in Hc. rewrite <- Hr in Hc.
    destruct (decision r); try discriminate Hd. exact Hc.
  - eapply Forall_map_filter; [exact Hm|].
    intros r Hr Hd. unfold has_decision in Hd.
    pose proof (merge_field_change_cases self (field_name r)
                  (existing_value r) (ai_value r) (ai_confidence r)) as Hc.
    cbv zeta in Hc. rewrite <- Hr in Hc.
    destruct (decision r); try discriminate Hd. exact Hc.
  - clear Hm.
    induction field_mapping as [|item rest IH]; [constructor|].
    cbn [results_of]. unfold entry_result.
    destruct (fields extraction !! fst item) as [ai_field|]; [|exact IH].
    cbn [List.filter].
    match goal with
    | |- context [merge_field ?s ?n ?x ?a ?c] =>
        pose proof (merge_field_change_cases s n x a c) as Hc;
        destruct (merge_field_carries_inputs s n x a c) as (Hn & _);
        cbv zeta in Hc, Hn;
        set (r := merge_field s n x a c) in *
    end.
    unfold has_decision at 1.
    destruct (decision r); cbn [MergeDecision_eqb]; try exact IH.
    cbn [List.map]. constructor; [|exact IH]. rewrite Hn. exact Hc.
Qed.

(** X8.  A merge has changes exactly when one of its field results is a
    change. *)
Theorem has_changes_iff_some_change `{DateLib} (self : MergeStrategy)
    (document : Document) (extraction : ExtractionResult)
    (field_mapping : list (str * str)) (confidence' : ConfidenceScore) :
  let m := merge_document self document extraction field_mapping confidence' in
  has_changes m = existsb is_change (field_results m).
Proof.
  intros m. subst m. unfold merge_document. rewrite merge_loop_results.
  unfold has_changes.
  cbn [field_results auto_apply_changes review_changes app].
  generalize (results_of self document extraction field_mapping).
  intros rs. induction rs as [|r rs IH]; [reflexivity|].
  cbn [List.filter existsb]. unfold is_change at 1.
  change (has_decision USE_AI r)
    with (MergeDecision_eqb (decision r) USE_AI).
  change (has_decision NEEDS_REVIEW r)
    with (MergeDecision_eqb (decision r) NEEDS_REVIEW).
  destruct (decision r); cbn [MergeDecision_eqb orb List.map];
    try exact IH; try reflexivity.
  destruct (List.map change_of (List.filter (has_decision USE_AI) rs));
    reflexivity.
Qed.

(** X9.  The field results carry the store names of the mapping entries
    whose extracted name is in the extraction, in the order of the
    mapping. *)
Theorem merge_document_result_names `{DateLib} (self : MergeStrategy)
    (document : Document) (extraction : ExtractionResult)
    (field_mapping : list (str * str)) (confidence' : ConfidenceScore) :
  List.map field_name
    (field_results
       (merge_document self document extraction field_mapping confidence'))
  = List.map snd (List.filter (present extraction) field_mapping).
Proof.
  unfold merge_document. rewrite merge_loop_results.
  cbn [field_results app].
  induction field_mapping as [|item rest IH]; [reflexivity|].
  cbn [results_of List.filter]. unfold entry_result, present.
  destruct (fields extraction !! fst item) as [ai_field|]; [|exact IH].
  cbn [List.map]. rewrite IH. f_equal.
  apply merge_field_carries_inputs.
Qed.

(** ** Confidences are clamped *)

Lemma float_ltb_leb (a b : float) :
  (a <? b)%float = true -> (a <=? b)%float = true.
Proof.
  rewrite ltb_spec, leb_spec. unfold SFltb, SFleb.
  destruct (SFcompare (Prim2SF a) (Prim2SF b)) as [[| |]|];
    (discriminate || reflexivity).
Qed.

Lemma clamp01_range (c : float) :
  (0 <=? clamp01 c)%float = true /\ (clamp01 c <=? 1)%float = true.
Proof.
  unfold clamp01, py_max, py_min.
  destruct (c <? 1)%float eqn:E1.
  - destruct (0 <? c)%float eqn:E0.
    + split; apply float_ltb_leb; assumption.
    + split; reflexivity.
  - split; reflexivity.
Qed.

(** X10.  Whatever float a confidence is built from (out of range,
    infinite or not a number), the stored confidence of an extracted
    field, the template confidence of an extraction result and the overall
    value of a confidence score lie between 0.0 and 1.0. *)
Theorem stored_confidences_in_range (name' template_id' explanation' : str)
    (raw normalized : option str) (c : float) (type : FieldType)
    (fields' : gmap str ExtractedField) (field_scores' : gmap str float)
    (factor_scores' : list (ConfidenceFactor * float)) :
  let in_range x := (0 <=? x)%float = true /\ (x <=? 1)%float = true in
  in_range (confidence (ExtractedField_init name' raw normalized c type))
  /\ in_range
       (template_confidence (ExtractionResult_init template_id' c fields'))
  /\ in_range
       (overall
          (ConfidenceScore_init c field_scores' factor_scores' explanation')).
Proof.
  cbn [confidence ExtractedField_init template_confidence
       ExtractionResult_init overall ConfidenceScore_init].
  pose proof (clamp01_range c). tauto.
Qed.

(** ** Tax numbers and payment references *)

Lemma digits_only_digits (s : str) : forallb isdigit (digits_only s) = true.
Proof.
  unfold digits_only. induction s as [|c s IH]; [reflexivity|].
  cbn [List.filter]. destruct (isdigit c) eqn:E; [|exact IH].
  cbn [forallb]. rewrite E, IH. reflexivity.
Qed.

Lemma digits_only_fixed (s : str) :
  forallb isdigit s = true -> digits_only s = s.
Proof.
  unfold digits_only. induction s as [|c s IH]; [reflexivity|].
  cbn [forallb List.filter]. intros H.
  apply andb_true_iff in H as [Hc Hs]. rewrite Hc, (IH Hs). reflexivity.
Qed.

Lemma forallb_skipn {A : Type} (p : A -> bool) (n : nat) (l : list A) :
  forallb p l = true -> forallb p (skipn n l) = true.
Proof.
  revert l. induction n as [|n IH]; intros l H; [exact H|].
  destruct l as [|x l]; [reflexivity|].
  cbn [forallb] in H. apply andb_true_iff in H as [_ H]. apply IH, H.
Qed.

(** X11.  A result of [normalize_nif] holds only digits.  It is either the
    nine digits of the input, and normalising it again returns it; or the
    last eight digits of an input with eleven digits that begin with 351,
    and normalising it again fails. *)
Theorem normalize_nif_result (value : pyvalue) (out : str) :
  normalize_nif value = Some out ->
  forallb isdigit out = true
  /\ ((length out = 9%nat /\ out = digits_only (py_str value)
       /\ normalize_nif (VStr out) = Some out)
      \/ (length out = 8%nat /\ digits_only (py_str value) = u "351" ++ out
          /\ normalize_nif (VStr out) = None)).
Proof.
  assert (Hstep : forall digits,
    forallb isdigit digits = true ->
    (if Nat.eqb (length digits) 9 then Some digits
     else if Nat.eqb (length digits) 11 && startswith digits (u "351")
     then Some (skipn 3 digits) else None) = Some out ->
    forallb isdigit out = true
    /\ ((length out = 9%nat /\ out = digits
         /\ normalize_nif (VStr out) = Some out)
        \/ (length out = 8%nat /\ digits = u "351" ++ out
            /\ normalize_nif (VStr out) = None))).
  { intros digits Hd H.
    destruct (Nat.eqb (length digits) 9) eqn:E9.
    - injection H as <-. apply Nat.eqb_eq in E9.
      split; [exact Hd|]. left. split; [exact E9|]. split; [reflexivity|].
      unfold normalize_nif. cbn [py_str].
      rewrite (digits_only_fixed digits Hd), E9. reflexivity.
    - destruct (Nat.eqb (length digits) 11 && startswith digits (u "351"))
        eqn:E11; [|discriminate].
      injection H as <-. apply andb_true_iff in E11 as [E11 Es].
      apply Nat.eqb_eq in E11. apply startswith_firstn in Es.
      assert (Hlen : length (skipn 3 digits) = 8%nat)
        by (rewrite length_skipn, E11; reflexivity).
      split; [apply forallb_skipn, Hd|]. right.
      split; [exact Hlen|]. split.
      + rewrite <- Es. symmetry. apply firstn_skipn.
      + unfold normalize_nif. cbn [py_str].
        rewrite (digits_only_fixed _ (forallb_skipn isdigit 3 digits Hd)).
        rewrite Hlen. reflexivity. }
  unfold normalize_nif at 1.
  destruct value as [|s|n]; [discriminate| |];
    apply Hstep, digits_only_digits.
Qed.

Lemma normalize_nif_result_example :
  forallb isdigit (u "123456789") = true
  /\ ((length (u "123456789") = 9%nat
       /\ u "123456789" = digits_only (py_str (VStr (u "PT123456789")))
       /\ normalize_nif (VStr (u "123456789")) = Some (u "123456789"))
      \/ (length (u "123456789") = 8%nat
          /\ digits_only (py_str (VStr (u "PT123456789")))
             = u "351" ++ u "123456789"
          /\ normalize_nif (VStr (u "123456789")) = None)).
Proof.
  apply (normalize_nif_result (VStr (u "PT123456789")) (u "123456789")).
  reflexivity.
Defined.

(** X12.  A result of [normalize_mb_reference] is the digits of the
    input, nine or fifteen of them, and normalising it again returns
    it. *)
Theorem normalize_mb_reference_result (value : pyvalue) (out : str) :
  normalize_mb_reference value = Some out ->
  out = digits_only (py_str value)
  /\ forallb isdigit out = true
  /\ (length out = 9%nat \/ length out = 15%nat)
  /\ normalize_mb_reference (VStr out) = Some out.
Proof.
  assert (Hstep : forall digits,
    forallb isdigit digits = true ->
    (if Nat.eqb (length digits) 9 || Nat.eqb (length digits) 15
     then Some digits else None) = Some out ->
    out = digits /\ forallb isdigit out = true
    /\ (length out = 9%nat \/ length out = 15%nat)
    /\ normalize_mb_reference (VStr out) = Some out).
  { intros digits Hd H.
    destruct (Nat.eqb (length digits) 9 || Nat.eqb (length digits) 15)
      eqn:E; [|discriminate].
    injection H as <-. split; [reflexivity|]. split; [exact Hd|]. split.
    - apply orb_true_iff in E as [E|E]; apply Nat.eqb_eq in E; auto.
    - unfold normalize_mb_reference. cbn [py_str].
      rewrite (digits_only_fixed digits Hd), E. reflexivity. }
  unfold normalize_mb_reference at 1.
  destruct value as [|s|n]; [discriminate| |];
    apply Hstep, digits_only_digits.
Qed.

Lemma normalize_mb_reference_result_example :
  u "123456789" = digits_only (py_str (VStr (u "123 456 789")))
  /\ forallb isdigit (u "123456789") = true
  /\ (length (u "123456789") = 9%nat \/ length (u "123456789") = 15%nat)
  /\ normalize_mb_reference (VStr (u "123456789")) = Some (u "123456789").
Proof.
  apply (normalize_mb_reference_result (VStr (u "123 456 789"))
           (u "123456789")).
  reflexivity.
Defined.

(** ** Stripping a set of characters *)

Section StripBy.
Variable chars : N -> bool.

Lemma lstrip_by_head (s : str) :
  match lstrip_by chars s with
  | c :: _ => chars c = false
  | [] => True
  end.
Proof.
  induction s as [|c s IH]; [exact I|].
  cbn [lstrip_by]. destruct (chars c) eqn:E; [exact IH | exact E].
Qed.

Lemma lstrip_by_fixed (s : str) :
  match s with c :: _ => chars c = false | [] => True end ->
  lstrip_by chars s = s.
Proof. destruct s as [|c s]; [reflexivity|]. cbn. intros ->. reflexivity. Qed.

(** What is stripped on the left holds only characters of the set. *)
Lemma lstrip_by_split (s : str) :
  exists a, s = a ++ lstrip_by chars s /\ forallb chars a = true.
Proof.
  induction s as [|c s (a & Ha & Hp)]; [exists []; split; reflexivity|].
  cbn [lstrip_by]. destruct (chars c) eqn:E.
  - exists (c :: a). cbn [app forallb]. rewrite E, Hp. split; [|reflexivity].
    f_equal. exact Ha.
  - exists []. split; reflexivity.
Qed.

Lemma lstrip_by_app_keep (a b : str) (c : N) :
  chars c = false ->
  lstrip_by chars (a ++ c :: b) = lstrip_by chars a ++ c :: b.
Proof.
  intros Hc. induction a as [|x a IH]; cbn [app lstrip_by].
  - rewrite Hc. reflexivity.
  - destruct (chars x); [exact IH | reflexivity].
Qed.

Lemma rstrip_by_last (s : str) :
  match rev (rstrip_by chars s) with
  | c :: _ => chars c = false
  | [] => True
  end.
Proof. unfold rstrip_by. rewrite rev_involutive. apply lstrip_by_head. Qed.

Lemma rstrip_by_split (s : str) :
  exists t, s = rstrip_by chars s ++ t /\ forallb chars t = true.
Proof.
  unfold rstrip_by. destruct (lstrip_by_split (rev s)) as (a & Ha & Hp).
  exists (rev a). split.
  - rewrite <- (rev_involutive s), Ha at 1. rewrite rev_app_distr.
    reflexivity.
  - rewrite forallb_forall in *. intros x Hx. apply Hp.
    apply in_rev. exact Hx.
Qed.

Lemma rstrip_by_idempotent (s : str) :
  rstrip_by chars (rstrip_by chars s) = rstrip_by chars s.
Proof.
  unfold rstrip_by. rewrite rev_involutive.
  rewrite (lstrip_by_fixed _ (lstrip_by_head (rev s))). reflexivity.
Qed.

(** Stripping on the right keeps a first character outside the set. *)
Lemma rstrip_by_cons_keep (c : N) (s : str) :
  chars c = false -> rstrip_by chars (c :: s) = c :: rstrip_by chars s.
Proof.
  intros Hc. unfold rstrip_by. cbn [rev].
  rewrite (lstrip_by_app_keep (rev s) [] c Hc), rev_app_distr. reflexivity.
Qed.

Lemma rstrip_by_head (s : str) :
  match s with c :: _ => chars c = false | [] => True end ->
  match rstrip_by chars s with c :: _ => chars c = false | [] => True end.
Proof.
  destruct s as [|c s]; [intros _; exact I|]. intros Hc.
  rewrite (rstrip_by_cons_keep c s Hc). exact Hc.
Qed.

Lemma length_rstrip_by (s : str) :
  (length (rstrip_by chars s) <= length s)%nat.
Proof.
  destruct (rstrip_by_split s) as (t & Ht & _).
  rewrite Ht at 2. rewrite length_app. lia.
Qed.

Lemma Forall_lstrip_by (P : N -> Prop) (s : str) :
  Forall P s -> Forall P (lstrip_by chars s).
Proof.
  intros H. destruct (lstrip_by_split s) as (a & Ha & _).
  rewrite Ha in H. apply Forall_app in H. tauto.
Qed.

Lemma Forall_rstrip_by (P : N -> Prop) (s : str) :
  Forall P s -> Forall P (rstrip_by chars s).
Proof.
  intros H. destruct (rstrip_by_split s) as (t & Ht & _).
  rewrite Ht in H. apply Forall_app in H. tauto.
Qed.

End StripBy.

(** X13.  The base URL of the store is kept without its trailing slashes:
    the result does not end in a slash, it is the input less a run of
    slashes at its end, and normalising it again changes nothing. *)
Theorem normalize_url_no_trailing_slash (v : str) :
  match rev (normalize_url v) with
  | c :: _ => c <> 47
  | [] => True
  end
  /\ (exists slashes,
        v = normalize_url v ++ slashes
        /\ forallb (N.eqb 47) slashes = true)
  /\ normalize_url (normalize_url v) = normalize_url v.
Proof.
  unfold normalize_url. split; [|split].
  - pose proof (rstrip_by_last (N.eqb 47) v) as H.
    destruct (rev (rstrip_by (N.eqb 47) v)) as [|c r]; [exact I|].
    intros ->. discriminate H.
  - apply rstrip_by_split.
  - apply rstrip_by_idempotent.
Qed.

(** ** File names *)

Lemma Forall_collapse_dashes (P : N -> Prop) (s : str) :
  Forall P s -> Forall P (collapse_dashes s).
Proof.
  induction s as [|c s IH]; intros H; [constructor|].
  inversion H as [|? ? Hc Hs]; subst. specialize (IH Hs).
  cbn [collapse_dashes].
  destruct (c =? 45); [|constructor; assumption].
  destruct s as [|d s]; [constructor; [assumption | constructor]|].
  destruct (d =? 45); [exact IH | constructor; assumption].
Qed.

Lemma Forall_slice_to (P : N -> Prop) (s : str) (k : Z) :
  Forall P s -> Forall P (slice_to s k).
Proof.
  intros H. unfold slice_to.
  destruct (k <? 0)%Z;
    match goal with
    | |- Forall P (firstn ?n s) =>
        rewrite <- (firstn_skipn n s) in H; apply Forall_app in H; tauto
    end.
Qed.

(** Once every invalid character is written as a dash, none is left. *)
Lemma invalid_chars_replaced (text : str) :
  Forall (fun c => existsb (N.eqb c) invalid_chars = false)
    (fold_left (fun acc char => replace acc [char] (u "-")) invalid_chars
               text).
Proof.
  unfold invalid_chars. cbn [fold_left]. change (u "-") with [45].
  rewrite !replace_char_map, !map_map. apply Forall_map.
  apply Forall_forall. intros x _.
  repeat match goal with
         | |- context [?c =? x] =>
             let E := fresh "E" in
             destruct (c =? x) eqn:E;
             [apply N.eqb_eq in E; subst x; reflexivity|]
         end.
  cbn [existsb]. rewrite !(N.eqb_sym x).
  repeat match goal with
         | E : (_ =? x) = false |- _ => rewrite E; clear E
         end.
  reflexivity.
Qed.

(** X14.  A sanitised file name holds none of the nine characters that
    are invalid in file names, and it neither begins nor ends with a dash
    or a space, whatever the text and the length limit. *)
Theorem sanitize_filename_clean (text : str) (max_length : Z) :
  let result := sanitize_filename text max_length in
  Forall (fun c => existsb (N.eqb c) invalid_chars = false) result
  /\ match result with
     | c :: _ => dash_or_space c = false
     | [] => True
     end
  /\ match rev result with
     | c :: _ => dash_or_space c = false
     | [] => True
     end.
Proof.
  unfold sanitize_filename.
  set (replaced := fold_left _ invalid_chars text).
  set (stripped := strip_by dash_or_space (collapse_dashes replaced)).
  assert (Hvalid : Forall (fun c => existsb (N.eqb c) invalid_chars = false)
                     stripped).
  { apply Forall_rstrip_by, Forall_lstrip_by, Forall_collapse_dashes.
    apply invalid_chars_replaced. }
  assert (Hhead : match stripped with
                  | c :: _ => dash_or_space c = false
                  | [] => True
                  end).
  { apply rstrip_by_head, lstrip_by_head. }
  destruct (max_length <? Z.of_nat (length stripped))%Z; cbv zeta.
  - split; [apply Forall_rstrip_by, Forall_slice_to, Hvalid|].
    split; [|apply rstrip_by_last].
    apply rstrip_by_head. unfold slice_to.
    destruct stripped as [|c r]; [destruct (max_length <? 0)%Z;
      rewrite firstn_nil; exact I|].
    destruct (max_length <? 0)%Z;
      match goal with
      | |- match firstn ?n _ with _ => _ end =>
          destruct n; [exact I | exact Hhead]
      end.
  - split; [exact Hvalid|]. split; [exact Hhead | apply rstrip_by_last].
Qed.

Lemma length_slice_to_le (s : str) (k : Z) :
  (0 <= k)%Z -> (Z.of_nat (length (slice_to s k)) <= k)%Z.
Proof.
  intros Hk. unfold slice_to.
  replace (k <? 0)%Z with false by (symmetry; apply Z.ltb_ge; lia).
  rewrite length_firstn. lia.
Qed.

(** X15.  For a length limit that is not negative, a sanitised file name
    has at most that many characters. *)
Theorem sanitize_filename_length (text : str) (max_length : Z) :
  (0 <= max_length)%Z ->
  (Z.of_nat (length (sanitize_filename text max_length)) <= max_length)%Z.
Proof.
  intros Hm. unfold sanitize_filename.
  match goal with
  | |- context [(max_length <? ?n)%Z] =>
      destruct (max_length <? n)%Z eqn:E
  end.
  - pose proof (length_rstrip_by dash_or_space
                  (slice_to
                     (strip_by dash_or_space
                        (collapse_dashes
                           (fold_left
                              (fun acc char => replace acc [char] (u "-"))
                              invalid_chars text))) max_length)) as H1.
    pose proof (length_slice_to_le
                  (strip_by dash_or_space
                     (collapse_dashes
                        (fold_left
                           (fun acc char => replace acc [char] (u "-"))
                           invalid_chars text))) max_length Hm) as H2.
    lia.
  - apply Z.ltb_ge in E. exact E.
Qed.

Lemma sanitize_filename_length_example :
  (Z.of_nat (length (sanitize_filename (u "2025/01: bill?") 8)) <= 8)%Z.
Proof. apply sanitize_filename_length. lia. Defined.

(** ** Truncating and padding *)

(** X16.  When the ellipsis fits into the limit, a truncated text has
    the length of the text or of the limit, whichever is smaller: a text
    within the limit is returned as it is, a longer one is cut to leave
    room for the ellipsis that ends it. *)
Theorem truncate_text_length (text : str) (max_length : Z) (ellipsis : str) :
  (Z.of_nat (length ellipsis) <= max_length)%Z ->
  let result := truncate_text text max_length ellipsis in
  Z.of_nat (length result) = Z.min (Z.of_nat (length text)) max_length
  /\ ((Z.of_nat (length text) <= max_length)%Z -> result = text)
  /\ ((max_length < Z.of_nat (length text))%Z ->
      result
      = firstn (Z.to_nat (max_length - Z.of_nat (length ellipsis))) text
          ++ ellipsis).
Proof.
  intros He. unfold truncate_text.
  destruct (Z.of_nat (length text) <=? max_length)%Z eqn:E; cbv zeta.
  - apply Z.leb_le in E. split; [lia|]. split; [reflexivity | lia].
  - apply Z.leb_gt in E. split; [|split; [lia|]].
    + rewrite length_app, Nat2Z.inj_add, length_slice_to by lia. lia.
    + intros _. unfold slice_to.
      replace (max_length - Z.of_nat (length ellipsis) <? 0)%Z with false
        by (symmetry; apply Z.ltb_ge; lia).
      reflexivity.
Qed.

Lemma truncate_text_length_example :
  let result := truncate_text (u "hello world") 8 (u "...") in
  Z.of_nat (length result) = Z.min (Z.of_nat (length (u "hello world"))) 8
  /\ ((Z.of_nat (length (u "hello world")) <= 8)%Z
      -> result = u "hello world")
  /\ ((8 < Z.of_nat (length (u "hello world")))%Z ->
      result
      = firstn (Z.to_nat (8 - Z.of_nat (length (u "...")))) (u "hello world")
          ++ u "...").
Proof.
  apply (truncate_text_length (u "hello world") 8 (u "...")).
  vm_compute. discriminate.
Defined.

Lemma str_times_one (c : N) (n : Z) : str_times [c] n = repeat c (Z.to_nat n).
Proof.
  unfold str_times. induction (Z.to_nat n) as [|k IH]; [reflexivity|].
  cbn [repeat List.concat app]. rewrite IH. reflexivity.
Qed.

Lemma slice_to_all (s : str) (k : Z) :
  (Z.of_nat (length s) <= k)%Z -> slice_to s k = s.
Proof.
  intros H. unfold slice_to.
  replace (k <? 0)%Z with false by (symmetry; apply Z.ltb_ge; lia).
  apply firstn_all2. lia.
Qed.

(** X17.  Padding on the right with one fill character to a width that
    is not negative gives exactly that width; a text that fits is the
    beginning of the result, and padding the result again changes
    nothing. *)
Theorem pad_right_width (text : str) (width : Z) (c : N) :
  (0 <= width)%Z ->
  let result := pad_right text width [c] in
  Z.of_nat (length result) = width
  /\ ((Z.of_nat (length text) <= width)%Z ->
      firstn (length text) result = text)
  /\ pad_right result width [c] = result.
Proof.
  intros Hw.
  assert (Hlen : Z.of_nat (length (pad_right text width [c])) = width).
  { unfold pad_right.
    destruct (width <=? Z.of_nat (length text))%Z eqn:E.
    - apply Z.leb_le in E. apply length_slice_to. lia.
    - apply Z.leb_gt in E.
      rewrite length_app, str_times_one, repeat_length. lia. }
  cbv zeta. split; [exact Hlen|]. split.
  - intros Hfit. unfold pad_right.
    destruct (width <=? Z.of_nat (length text))%Z eqn:E.
    + apply Z.leb_le in E. rewrite slice_to_all by lia.
      apply firstn_all.
    + rewrite firstn_app, Nat.sub_diag, firstn_all, firstn_O.
      apply app_nil_r.
  - unfold pad_right at 1. rewrite Hlen, Z.leb_refl.
    apply slice_to_all. lia.
Qed.

Lemma pad_right_width_example :
  let result := pad_right (u "INV-001") 10 [32] in
  Z.of_nat (length result) = 10%Z
  /\ ((Z.of_nat (length (u "INV-001")) <= 10)%Z ->
      firstn (length (u "INV-001")) result = u "INV-001")
  /\ pad_right result 10 [32] = result.
Proof. apply (pad_right_width (u "INV-001") 10 32). lia. Defined.

(** X18.  Padding on the left with one fill character to a width that is
    not negative gives exactly that width; a text that fits is the end of
    the result, and padding the result again changes nothing. *)
Theorem pad_left_width (text : str) (width : Z) (c : N) :
  (0 <= width)%Z ->
  let result := pad_left text width [c] in
  Z.of_nat (length result) = width
  /\ ((Z.of_nat (length text) <= width)%Z ->
      skipn (length result - length text) result = text)
  /\ pad_left result width [c] = result.
Proof.
  intros Hw.
  assert (Hlen : Z.of_nat (length (pad_left text width [c])) = width).
  { unfold pad_left.
    destruct (width <=? Z.of_nat (length text))%Z eqn:E.
    - apply Z.leb_le in E. apply length_slice_to. lia.
    - apply Z.leb_gt in E.
      rewrite length_app, str_times_one, repeat_length. lia. }
  cbv zeta. split; [exact Hlen|]. split.
  - intros Hfit. unfold pad_left.
    destruct (width <=? Z.of_nat (length text))%Z eqn:E.
    + apply Z.leb_le in E. rewrite slice_to_all by lia.
      rewrite Nat.sub_diag. reflexivity.
    + rewrite length_app, Nat.add_sub.
      rewrite skipn_app, Nat.sub_diag, skipn_all. reflexivity.
  - unfold pad_left at 1. rewrite Hlen, Z.leb_refl.
    apply slice_to_all. lia.
Qed.

Lemma pad_left_width_example :
  let result := pad_left (u "12.50") 8 [32] in
  Z.of_nat (length result) = 8%Z
  /\ ((Z.of_nat (length (u "12.50")) <= 8)%Z ->
      skipn (length result - length (u "12.50")) result = u "12.50")
  /\ pad_left result 8 [32] = result.
Proof. apply (pad_left_width (u "12.50") 8 32). lia. Defined.

(** ** Printed numbers are read back *)

Lemma u_string_of_uint (d : Decimal.uint) :
  u (NilEmpty.string_of_uint d) = codes_of_uint d.
Proof.
  unfold u. induction d; cbn [NilEmpty.string_of_uint list_ascii_of_string
                                List.map codes_of_uint];
    try rewrite IHd; reflexivity.
Qed.

Lemma str_of_N_codes (n : N) : str_of_N n = codes_of_uint (N.to_uint n).
Proof.
  unfold str_of_N. rewrite <- u_string_of_uint.
  destruct n as [|p]; [reflexivity|].
  unfold NilZero.string_of_uint. cbn [N.to_uint].
  pose proof (DecimalPos.Unsigned.to_uint_nonnil p) as H.
  destruct (Pos.to_uint p); [contradiction | reflexivity ..].
Qed.

Lemma digits_value_pos (d : Decimal.uint) (acc : positive) :
  digits_value (N.pos acc) (codes_of_uint d) = N.pos (Pos.of_uint_acc d acc).
Proof.
  revert acc. induction d; intros acc;
    cbn [codes_of_uint digits_value Pos.of_uint_acc];
    [reflexivity | ..];
    match goal with
    | |- digits_value ?a _ = N.pos (Pos.of_uint_acc _ ?b) =>
        replace a with (N.pos b) by lia; apply IHd
    end.
Qed.

Lemma digits_value_of_uint (d : Decimal.uint) :
  digits_value 0 (codes_of_uint d) = N.of_uint d.
Proof.
  unfold N.of_uint.
  induction d; cbn [codes_of_uint digits_value Pos.of_uint];
    [reflexivity | exact IHd | ..];
    match goal with
    | |- digits_value ?a _ = N.pos (Pos.of_uint_acc _ ?b) =>
        change a with (N.pos b); apply digits_value_pos
    end.
Qed.

Lemma digits_value_str_of_N (n : N) : digits_value 0 (str_of_N n) = n.
Proof.
  rewrite str_of_N_codes, digits_value_of_uint.
  apply DecimalN.Unsigned.of_to.
Qed.

Lemma codes_of_uint_digits (d : Decimal.uint) :
  forallb isdigit (codes_of_uint d) = true.
Proof. induction d; cbn [codes_of_uint forallb]; try rewrite IHd; reflexivity. Qed.

Lemma str_of_N_digits (n : N) : forallb isdigit (str_of_N n) = true.
Proof. rewrite str_of_N_codes. apply codes_of_uint_digits. Qed.

Lemma str_of_N_nonempty (n : N) : str_of_N n <> [].
Proof.
  rewrite str_of_N_codes. destruct n as [|p]; [discriminate|].
  cbn [N.to_uint]. pose proof (DecimalPos.Unsigned.to_uint_nonnil p) as H.
  destruct (Pos.to_uint p); [contradiction | discriminate ..].
Qed.

Lemma digits_value_app (a b : str) (acc : N) :
  digits_value acc (a ++ b) = digits_value (digits_value acc a) b.
Proof.
  revert acc. induction a as [|c a IH]; intros acc; [reflexivity|].
  cbn [app digits_value]. apply IH.
Qed.

Lemma digits_value_zeros (k : nat) (s : str) :
  digits_value 0 (repeat 48 k ++ s) = digits_value 0 s.
Proof.
  induction k as [|k IH]; [reflexivity|].
  cbn [repeat app digits_value]. exact IH.
Qed.

Lemma digits_value_trailing_zeros (k : nat) (acc : N) :
  digits_value acc (repeat 48 k) = acc * 10 ^ N.of_nat k.
Proof.
  revert acc. induction k as [|k IH]; intros acc.
  - cbn. lia.
  - cbn [repeat digits_value]. rewrite IH.
    rewrite Nat2N.inj_succ, N.pow_succ_r'. lia.
Qed.

Lemma span_digits_app (a b : str) :
  forallb isdigit a = true ->
  match b with c :: _ => isdigit c = false | [] => True end ->
  span_digits (a ++ b) = (a, b).
Proof.
  intros Ha Hb. induction a as [|c a IH].
  - destruct b as [|c b]; [reflexivity|]. cbn [app span_digits].
    rewrite Hb. reflexivity.
  - cbn [forallb] in Ha. apply andb_true_iff in Ha as [Hc Ha].
    cbn [app span_digits]. rewrite Hc, (IH Ha). reflexivity.
Qed.

Lemma printed_char_cases (c : N) :
  printed_char c = true -> In c [45; 46; 48; 49; 50; 51; 52; 53; 54; 55; 56; 57].
Proof.
  unfold printed_char, isdigit. intros H.
  rewrite !orb_true_iff, andb_true_iff, !N.leb_le, !N.eqb_eq in H.
  assert (E : c = 45 \/ c = 46 \/ (48 <= c <= 57)) by lia.
  cbn [In].
  destruct E as [E | [E | E]]; [lia | lia |].
  assert (c = 48 \/ c = 49 \/ c = 50 \/ c = 51 \/ c = 52 \/ c = 53 \/ c = 54
          \/ c = 55 \/ c = 56 \/ c = 57) by lia.
  intuition.
Qed.

Lemma printed_char_all (P : N -> Prop) :
  Forall P [45; 46; 48; 49; 50; 51; 52; 53; 54; 55; 56; 57] ->
  forall c, printed_char c = true -> P c.
Proof.
  intros HP c Hc. apply printed_char_cases in Hc.
  rewrite List.Forall_forall in HP. apply HP, Hc.
Qed.

Lemma lstrip_head (s : str) :
  match s with c :: _ => isspace c = false | [] => True end -> lstrip s = s.
Proof.
  destruct s as [|c s]; [reflexivity|]. intros H. cbn [lstrip].
  rewrite H. reflexivity.
Qed.

Lemma strip_no_space (s : str) :
  Forall (fun c => isspace c = false) s -> strip s = s.
Proof.
  intros H. unfold strip, rstrip.
  rewrite (lstrip_head s) by (destruct H; [exact I | assumption]).
  rewrite lstrip_head; [apply rev_involutive|].
  apply List.Forall_rev in H. destruct H; [exact I | assumption].
Qed.

Lemma replace_from_absent (h : N) (t new : str) (s : str) :
  Forall (fun c => (h =? c) = false) s ->
  replace_from (h :: t) new 0 s = s.
Proof.
  induction 1 as [|c s Hc Hs IH]; [reflexivity|].
  cbn [replace_from startswith]. rewrite Hc. cbn [andb].
  rewrite IH. reflexivity.
Qed.

Lemma Forall_printed (P : N -> Prop) (s : str) :
  Forall P [45; 46; 48; 49; 50; 51; 52; 53; 54; 55; 56; 57] ->
  forallb printed_char s = true -> Forall P s.
Proof.
  intros HP H. apply List.Forall_forall. intros c Hc.
  rewrite forallb_forall in H. apply (printed_char_all P HP), H, Hc.
Qed.

Ltac each_printed := repeat (constructor; [reflexivity|]); constructor.

(** A printed amount goes through the clean-up unchanged. *)
Lemma amount_text_printed (s : str) :
  forallb printed_char s = true -> amount_text s = s.
Proof.
  intros H. unfold amount_text.
  rewrite (strip_no_space s)
    by (apply (Forall_printed _ s); [each_printed | exact H]).
  destruct s as [|c s]; [reflexivity|].
  set (t := c :: s) in *.
  assert (E : fold_left (fun acc symbol => replace acc symbol [])
                CURRENCY_SYMBOLS t = t).
  { unfold CURRENCY_SYMBOLS, replace. cbn [fold_left u List.map
      list_ascii_of_string].
    repeat (rewrite (replace_from_absent _ _ _ t);
            [|apply (Forall_printed _ t); [each_printed | exact H]]).
    reflexivity. }
  rewrite E.
  rewrite (strip_no_space t)
    by (apply (Forall_printed _ t); [each_printed | exact H]).
  unfold re_sub_empty.
  assert (F : Forall (fun c => negb (AMOUNT_CLEANUP_PATTERN c) = true) t)
    by (apply (Forall_printed _ t); [each_printed | exact H]).
  clearbody t. clear E H. induction F as [|x t Hx Ht IH]; [reflexivity|].
  cbn [List.filter]. rewrite Hx, IH. reflexivity.
Qed.

(** A text with no comma is left as it is by the separator analysis. *)
Lemma resolve_no_comma (s : str) :
  contains s (u ",") = false -> resolve_separators s = s.
Proof.
  intros Hc. unfold resolve_separators.
  change (u ",") with [44] in *. change (u ".") with [46].
  rewrite (rfind_absent 44 s Hc), Hc.
  destruct (contains s [46]) eqn:Hp.
  - destruct (rfind_present 46 s Hp) as (k & -> & _).
    replace (Z.of_nat k <? -1)%Z with false by (symmetry; apply Z.ltb_ge; lia).
    replace (-1 <? Z.of_nat k)%Z with true by (symmetry; apply Z.ltb_lt; lia).
    rewrite replace_char_delete. apply filter_absent, Hc.
  - rewrite (rfind_absent 46 s Hp). reflexivity.
Qed.

Lemma printed_no_comma (s : str) :
  forallb printed_char s = true -> contains s (u ",") = false.
Proof.
  intros H. change (u ",") with [44]. rewrite contains_char.
  apply not_true_is_false. intros E. apply existsb_exists in E as (c & Hin & Hc).
  apply N.eqb_eq in Hc. subst c.
  rewrite forallb_forall in H. specialize (H _ Hin). discriminate.
Qed.

Lemma format_f_ext (d1 d2 : Decimal) (places : Z) :
  dec_sign d1 = dec_sign d2 -> rescale d1 places = rescale d2 places ->
  format_f d1 places = format_f d2 places.
Proof. intros Hs Hr. unfold format_f. rewrite Hs, Hr. reflexivity. Qed.

(** The text [format_f] prints: a sign, digits before the point and
    [places] digits after it; read as a number, the digits are the
    rescaled coefficient. *)
Lemma format_f_shape (d : Decimal) (places : Z) (r : str) :
  format_f d places = Some r ->
  (0 <= places)%Z
  /\ exists ip fp : str,
      r = (if dec_sign d then [45] else []) ++ ip
            ++ match Z.to_nat places with O => [] | S _ => 46 :: fp end
      /\ ip <> [] /\ forallb isdigit ip = true /\ forallb isdigit fp = true
      /\ length fp = Z.to_nat places
      /\ digits_value 0 (ip ++ fp) = rescale d places.
Proof.
  unfold format_f. destruct (places <? 0)%Z eqn:E; [discriminate|].
  apply Z.ltb_ge in E. intros [= <-]. split; [exact E|].
  set (p := Z.to_nat places).
  set (digs := str_of_N (rescale d places)).
  set (padded := repeat 48 (p + 1 - length digs) ++ digs).
  assert (Hlen : (p + 1 <= length padded)%nat).
  { unfold padded. rewrite length_app, repeat_length. lia. }
  assert (Hdig : forallb isdigit padded = true).
  { unfold padded. rewrite forallb_app. apply andb_true_iff. split.
    - apply forallb_forall. intros x Hx. apply repeat_spec in Hx. subst x.
      reflexivity.
    - apply str_of_N_digits. }
  exists (firstn (length padded - p) padded),
         (skipn (length padded - p) padded).
  rewrite <- (firstn_skipn (length padded - p) padded) in Hdig.
  rewrite forallb_app in Hdig. apply andb_true_iff in Hdig as [H1 H2].
  split; [reflexivity|]. split.
  - intros E0. apply (f_equal (@length N)) in E0.
    rewrite length_firstn in E0. cbn [length] in E0. lia.
  - split; [exact H1|]. split; [exact H2|]. split.
    + rewrite length_skipn. lia.
    + rewrite firstn_skipn. unfold padded.
      rewrite digits_value_zeros. apply digits_value_str_of_N.
Qed.

Lemma Decimal_of_str_printed (b : bool) (ip fp : str) :
  ip <> [] -> forallb isdigit ip = true -> forallb isdigit fp = true ->
  Decimal_of_str ((if b then [45] else []) ++ ip
                    ++ match length fp with O => [] | S _ => 46 :: fp end)
  = Some (mkDecimal b (digits_value 0 (ip ++ fp)) (- Z.of_nat (length fp))).
Proof.
  intros Hne Hip Hfp. unfold Decimal_of_str.
  assert (Hsign : take_sign ((if b then [45] else []) ++ ip
                    ++ match length fp with O => [] | S _ => 46 :: fp end)
                  = (b, ip ++ match length fp with
                              | O => [] | S _ => 46 :: fp end)).
  { destruct b; [reflexivity|]. cbn [app].
    destruct ip as [|c ip]; [contradiction|].
    cbn [forallb] in Hip. apply andb_true_iff in Hip as [Hc _].
    assert (Hp : printed_char c = true)
      by (unfold printed_char; rewrite Hc; reflexivity).
    apply printed_char_cases in Hp. cbn [In] in Hp.
    intuition (subst c; try discriminate; reflexivity). }
  rewrite Hsign.
  rewrite span_digits_app;
    [| exact Hip | destruct (length fp); [exact I | reflexivity]].
  destruct fp as [|c fp]; cbn [length].
  - rewrite app_nil_r. destruct ip; [contradiction | reflexivity].
  - rewrite Hfp. cbn [andb].
    replace (length ip + S (length fp) =? 0)%nat with false
      by (symmetry; apply Nat.eqb_neq; lia).
    reflexivity.
Qed.

Lemma rescale_exact (b : bool) (n : N) (places : Z) :
  rescale (mkDecimal b n (- places)) places = n.
Proof.
  unfold rescale. cbn [dec_exp dec_coef].
  replace (- places + places)%Z with 0%Z by lia. cbn. lia.
Qed.

Lemma forallb_isdigit_printed (s : str) :
  forallb isdigit s = true -> forallb printed_char s = true.
Proof.
  intros H. rewrite forallb_forall in *. intros x Hx. unfold printed_char.
  rewrite (H x Hx). reflexivity.
Qed.

Lemma format_decimal_shape (clean : str) (places : Z) (r : str) :
  format_decimal clean places = Some r ->
  forallb printed_char r = true /\ r <> []
  /\ format_decimal r places = Some r.
Proof.
  unfold format_decimal at 1.
  destruct (Decimal_of_str clean) as [d|]; [|discriminate].
  intros Hf. pose proof Hf as Hshape.
  apply format_f_shape in Hshape
    as (Hp & ip & fp & Hr & Hne & Hip & Hfp & Hlen & Hval).
  split; [|split].
  - subst r. rewrite !forallb_app. apply andb_true_iff. split;
      [destruct (dec_sign d); reflexivity|].
    apply andb_true_iff. split; [apply forallb_isdigit_printed, Hip|].
    destruct (Z.to_nat places); [reflexivity|]. cbn [forallb].
    apply forallb_isdigit_printed, Hfp.
  - subst r. destruct (dec_sign d); [discriminate|]. cbn [app].
    destruct ip; [contradiction | discriminate].
  - unfold format_decimal. rewrite Hr at 1. rewrite <- Hlen.
    rewrite (Decimal_of_str_printed _ ip fp Hne Hip Hfp).
    rewrite <- Hf. apply format_f_ext; [reflexivity|].
    rewrite Hlen, Z2Nat.id by exact Hp.
    rewrite rescale_exact. exact Hval.
Qed.

Lemma normalize_amount_format (value : pyvalue) (places : Z) (r : str) :
  normalize_amount value places = Some r ->
  exists clean, format_decimal clean places = Some r.
Proof.
  destruct value as [|v|n]; cbn [normalize_amount]; [discriminate| |].
  - destruct (amount_text v) eqn:E; [discriminate|]. intros H.
    eexists. exact H.
  - intros H. eexists. exact H.
Qed.

Lemma normalize_amount_printed (r : str) (places : Z) :
  forallb printed_char r = true -> r <> [] ->
  normalize_amount (VStr r) places = format_decimal r places.
Proof.
  intros Hp Hne. cbn [normalize_amount]. rewrite (amount_text_printed r Hp).
  destruct r as [|c r]; [contradiction|].
  rewrite resolve_no_comma by (apply printed_no_comma, Hp). reflexivity.
Qed.








(** ** Numbers with units *)

Section StripMore.
Variable chars : N -> bool.

Lemma rstrip_by_app_keep (a b : str) (c : N) :
  chars c = false ->
  rstrip_by chars (a ++ c :: b) = a ++ c :: rstrip_by chars b.
Proof.
  intros Hc. unfold rstrip_by.
  rewrite rev_app_distr. cbn [rev]. rewrite <- app_assoc. cbn [app].
  rewrite (lstrip_by_app_keep chars (rev b) (rev a) c Hc).
  rewrite rev_app_distr. cbn [rev]. rewrite rev_involutive, <- app_assoc.
  reflexivity.
Qed.

Lemma rstrip_by_all (s : str) :
  forallb chars s = true -> rstrip_by chars s = [].
Proof.
  intros H. unfold rstrip_by.
  assert (E : forallb chars (rev s) = true).
  { rewrite forallb_forall in *. intros x Hx. apply H, in_rev, Hx. }
  induction (rev s) as [|x t IH]; [reflexivity|].
  cbn [forallb] in E. apply andb_true_iff in E as [Hx Ht].
  cbn [lstrip_by]. rewrite Hx. apply IH, Ht.
Qed.

Lemma rstrip_by_nil_all (s : str) :
  rstrip_by chars s = [] -> forallb chars s = true.
Proof.
  intros H. destruct (rstrip_by_split chars s) as (t & Hs & Ht).
  rewrite H in Hs. cbn [app] in Hs. subst t. exact Ht.
Qed.
End StripMore.

Lemma forallb_zero_repeat (t : str) :
  forallb (N.eqb 48) t = true -> t = repeat 48 (length t).
Proof.
  induction t as [|x t IH]; [reflexivity|]. cbn [forallb length repeat].
  intros H. apply andb_true_iff in H as [Hx Ht]. apply N.eqb_eq in Hx.
  subst x. f_equal. apply IH, Ht.
Qed.

(** What [normalize_number] keeps of a text printed with ten places: the
    sign, the digits before the point and the digits after it up to the
    last one that is not a zero. *)
Lemma strip_zeros_shape (sign ip fp : str) :
  ip <> [] -> forallb isdigit ip = true -> forallb isdigit fp = true ->
  exists fp' k,
    fp = fp' ++ repeat 48 k
    /\ forallb isdigit fp' = true
    /\ rstrip_by (N.eqb 46) (rstrip_by (N.eqb 48) (sign ++ ip ++ 46 :: fp))
       = sign ++ ip ++ match length fp' with O => [] | S _ => 46 :: fp' end.
Proof.
  intros Hne Hip Hfp.
  destruct (rstrip_by_split (N.eqb 48) fp) as (t & Hs & Ht).
  set (fp' := rstrip_by (N.eqb 48) fp) in *.
  exists fp', (length t). rewrite <- (forallb_zero_repeat t Ht).
  split; [exact Hs|].
  assert (Hfp' : forallb isdigit fp' = true).
  { rewrite Hs, forallb_app in Hfp. apply andb_true_iff in Hfp. tauto. }
  split; [exact Hfp'|].
  rewrite app_assoc, (rstrip_by_app_keep (N.eqb 48) _ fp 46 eq_refl).
  fold fp'.
  destruct (exists_last Hne) as (ip0 & c & Hipc).
  assert (Hcd : isdigit c = true).
  { rewrite Hipc, forallb_app in Hip. apply andb_true_iff in Hip as [_ Hc].
    cbn [forallb] in Hc. rewrite andb_true_r in Hc. exact Hc. }
  assert (Hc46 : (46 =? c) = false)
    by (unfold isdigit in Hcd; apply N.eqb_neq; intros <-; discriminate).
  destruct fp' as [|x fp0] eqn:Efp; cbn [length].
  - rewrite Hipc, <- !app_assoc. cbn [app].
    rewrite app_assoc. rewrite (rstrip_by_app_keep (N.eqb 46) _ [46] c Hc46).
    rewrite (rstrip_by_all (N.eqb 46) [46] eq_refl), <- app_assoc.
    reflexivity.
  - pose proof (rstrip_by_last (N.eqb 48) fp) as Hl. fold fp' in Hl.
    rewrite Efp in Hl.
    destruct (exists_last (l := x :: fp0) ltac:(discriminate))
      as (f0 & y & Hy).
    rewrite Hy in Hl, Hfp'. rewrite rev_app_distr in Hl. cbn [rev app] in Hl.
    rewrite forallb_app in Hfp'. apply andb_true_iff in Hfp' as [_ Hyd].
    cbn [forallb] in Hyd. rewrite andb_true_r in Hyd.
    assert (Hy46 : (46 =? y) = false)
      by (unfold isdigit in Hyd; apply N.eqb_neq; intros <-; discriminate).
    rewrite Hy.
    replace ((sign ++ ip) ++ 46 :: f0 ++ [y])
      with (((sign ++ ip) ++ 46 :: f0) ++ y :: [])
      by (rewrite <- !app_assoc; reflexivity).
    rewrite (rstrip_by_app_keep (N.eqb 46) _ [] y Hy46).
    rewrite <- !app_assoc. reflexivity.
Qed.

Lemma number_text_printed (r : str) :
  forallb printed_char r = true -> number_text r = r.
Proof.
  intros H. unfold number_text.
  assert (Hl : lower r = r).
  { unfold lower.
    assert (F : Forall (fun c => lower_char c = c) r)
      by (apply (Forall_printed _ r); [each_printed | exact H]).
    clear H. induction F as [|x t Hx Ht IH]; [reflexivity|].
    cbn [List.map]. rewrite Hx, IH. reflexivity. }
  rewrite Hl.
  assert (Hs : strip r = r)
    by (apply strip_no_space, (Forall_printed _ r); [each_printed | exact H]).
  rewrite Hs. unfold NUMBER_UNITS, replace.
  cbn [fold_left u List.map list_ascii_of_string].
  repeat (rewrite (replace_from_absent _ _ _ r);
          [rewrite Hs
          |apply (Forall_printed _ r); [each_printed | exact H]]).
  reflexivity.
Qed.

Lemma format_decimal_stripped (clean full : str) :
  format_decimal clean 10 = Some full ->
  let r := rstrip_by (N.eqb 46) (rstrip_by (N.eqb 48) full) in
  forallb printed_char r = true /\ r <> []
  /\ format_decimal r 10 = Some full.
Proof.
  unfold format_decimal at 1.
  destruct (Decimal_of_str clean) as [d|]; [|discriminate].
  intros Hf. pose proof Hf as Hshape.
  apply format_f_shape in Hshape
    as (_ & ip & fp & Hr & Hne & Hip & Hfp & Hlen & Hval).
  change (Z.to_nat 10) with 10%nat in *. cbv iota in Hr.
  destruct (strip_zeros_shape (if dec_sign d then [45] else []) ip fp
              Hne Hip Hfp) as (fp' & k & Hfp' & Hdig & Hstrip).
  rewrite <- Hr in Hstrip. cbv zeta. rewrite Hstrip.
  assert (Hk : (length fp' + k = 10)%nat)
    by (rewrite <- Hlen, Hfp', length_app, repeat_length; reflexivity).
  split; [|split].
  - rewrite !forallb_app. apply andb_true_iff. split;
      [destruct (dec_sign d); reflexivity|].
    apply andb_true_iff. split; [apply forallb_isdigit_printed, Hip|].
    destruct (length fp'); [reflexivity|]. cbn [forallb].
    apply forallb_isdigit_printed, Hdig.
  - destruct (dec_sign d); [discriminate|]. cbn [app].
    destruct ip; [contradiction | discriminate].
  - unfold format_decimal.
    rewrite (Decimal_of_str_printed _ ip fp' Hne Hip Hdig).
    rewrite <- Hf. apply format_f_ext; [reflexivity|].
    rewrite <- Hval, Hfp'. unfold rescale at 1. cbn [dec_exp dec_coef].
    replace (0 <=? - Z.of_nat (length fp') + 10)%Z with true
      by (symmetry; apply Z.leb_le; lia).
    rewrite app_assoc, (digits_value_app (ip ++ fp')).
    rewrite digits_value_trailing_zeros. f_equal. f_equal. lia.
Qed.

Lemma normalize_number_reads_back (value r : str) :
  normalize_number (VStr value) = Some r ->
  normalize_amount (VStr r) 10 = normalize_amount (VStr (number_text value)) 10
  /\ normalize_number (VStr r) = Some r.
Proof.
  cbn [normalize_number]. cbv zeta.
  destruct (normalize_amount (VStr (number_text value)) 10) as [full|] eqn:Hn;
    [|discriminate].
  pose proof Hn as Hc. apply normalize_amount_format in Hc as (clean & Hc).
  pose proof (format_decimal_shape _ _ _ Hc) as (_ & Hfull & _).
  destruct full as [|c full]; [contradiction|].
  intros [= <-].
  apply format_decimal_stripped in Hc. cbv zeta in Hc.
  destruct Hc as (Hp & Hne & Hf).
  set (r := rstrip_by (N.eqb 46) (rstrip_by (N.eqb 48) (c :: full))) in *.
  assert (Hr : normalize_amount (VStr r) 10 = Some (c :: full))
    by (rewrite (normalize_amount_printed r _ Hp Hne); exact Hf).
  split; [exact Hr|].
  rewrite (number_text_printed r Hp), Hr. reflexivity.
Qed.

(** X22.  Removing the trailing zeros loses nothing: a result of
    [normalize_number] on a text, read as an amount with ten places, is
    the ten-place amount of the text it was made from; and the result is a
    fixed point of [normalize_number]. *)
Theorem normalize_number_fixed_point (value r : str) :
  normalize_number (VStr value) = Some r ->
  normalize_amount (VStr r) 10 = normalize_amount (VStr (number_text value)) 10
  /\ normalize_number (VStr r) = Some r.
Proof.
  apply normalize_number_reads_back.
Qed.

Lemma normalize_number_fixed_point_example :
  normalize_amount (VStr (u "123.45")) 10
  = normalize_amount (VStr (number_text (u "123,45 kWh"))) 10
  /\ normalize_number (VStr (u "123.45")) = Some (u "123.45").
Proof.
  apply (normalize_number_fixed_point (u "123,45 kWh") (u "123.45")).
  reflexivity.
Defined.

(** ** Display of amounts and metrics *)

Lemma strip_str_of_Z (n : Z) : strip (str_of_Z n) = str_of_Z n.
Proof.
  apply strip_no_space, (Forall_printed _ (str_of_Z n)); [each_printed|].
  unfold str_of_Z.
  destruct (n <? 0)%Z; cbn [forallb]; try (rewrite andb_true_l);
    apply forallb_isdigit_printed, str_of_N_digits.
Qed.

Lemma str_of_Z_nonempty (n : Z) : str_of_Z n <> [].
Proof.
  unfold str_of_Z. destruct (n <? 0)%Z; [discriminate|].
  apply str_of_N_nonempty.
Qed.

Lemma display_placeholder (value : pyvalue) (suffix : str) :
  match value with
  | VNone => u "-"
  | _ =>
      match strip (py_str value) with
      | [] => u "-"
      | value_str => value_str ++ u " " ++ suffix
      end
  end = u "-" <-> is_empty_value value = true.
Proof.
  destruct value as [|s|n]; cbn [py_str is_empty_value].
  - split; reflexivity.
  - destruct (strip s) as [|c t]; [split; reflexivity|].
    split; [|discriminate]. intros E. exfalso.
    apply (f_equal (@length N)) in E.
    cbn [app length] in E. rewrite length_app in E. cbn in E. lia.
  - rewrite strip_str_of_Z. pose proof (str_of_Z_nonempty n) as Hne.
    destruct (str_of_Z n) as [|c t]; [contradiction|].
    split; [|discriminate]. intros E. exfalso.
    apply (f_equal (@length N)) in E.
    cbn [app length] in E. rewrite length_app in E. cbn in E. lia.
Qed.

(** X23.  The two display functions show the placeholder dash exactly for
    an empty value ([None], or a text of white space only), whatever the
    currency or the unit; and the alignment flag of
    [format_amount_display] has no effect on its result. *)
Theorem display_placeholder_iff_empty (value : pyvalue) (suffix : str)
    (use_figure_space : bool) :
  (format_amount_display value suffix use_figure_space = u "-"
   <-> is_empty_value value = true)
  /\ (format_metric_display value suffix = u "-"
      <-> is_empty_value value = true)
  /\ format_amount_display value suffix use_figure_space
     = format_amount_display value suffix (negb use_figure_space).
Proof.
  split; [apply display_placeholder|].
  split; [apply display_placeholder | reflexivity].
Qed.

(** ** Consumption in the utilities processors *)

Lemma set_normalized_same (field : ExtractedField) :
  set_normalized field (normalized_value field) = field.
Proof. destruct field; reflexivity. Qed.

Lemma set_field_same (extraction : ExtractionResult) (key : str)
    (field : ExtractedField) :
  fields extraction !! key = Some field ->
  set_field extraction key field = extraction.
Proof.
  intros H. unfold set_field. rewrite (insert_id _ _ _ H).
  destruct extraction; reflexivity.
Qed.

Lemma clean_consumption_normalized `{DateLib} (key : str)
    (extraction : ExtractionResult) (field field' : ExtractedField)
    (raw : str) :
  field_type field = NUMBER -> raw_value field = Some raw ->
  normalize_field field = Some field' ->
  fields extraction !! key = Some field' ->
  clean_consumption key extraction = extraction.
Proof.
  intros Ht Hraw Hn Hk. unfold normalize_field in Hn.
  rewrite Hraw, Ht in Hn.
  assert (Hf : field' = set_normalized field (normalize_number (VStr raw)))
    by congruence.
  clear Hn. subst field'.
  unfold clean_consumption. rewrite Hk. cbn [set_normalized normalized_value].
  destruct (normalize_number (VStr raw)) as [[|c r]|] eqn:E;
    [reflexivity| |reflexivity].
  destruct (normalize_number_reads_back raw (c :: r) E) as [_ ->].
  apply set_field_same. rewrite Hk. f_equal.
Qed.

(** X24.  A consumption field of type NUMBER that [normalize_field] has
    normalised from a raw value is left as it is by the post-processing of
    the water and of the energy processor: the second pass through
    [normalize_number] changes nothing, so the water processor returns the
    extraction unchanged and the energy processor keeps the field. *)
Theorem consumption_post_process_stable `{DateLib}
    (extraction : ExtractionResult) (document : Document)
    (field field' : ExtractedField) (raw : str) :
  field_type field = NUMBER -> raw_value field = Some raw ->
  normalize_field field = Some field' ->
  (fields extraction !! u "consumption_vol" = Some field' ->
   water_post_process extraction document = extraction)
  /\ (fields extraction !! u "consumption_kwh" = Some field' ->
      fields (energy_post_process extraction document) !! u "consumption_kwh"
      = Some field').
Proof.
  intros Ht Hraw Hn. split; intros Hk.
  - apply (clean_consumption_normalized _ _ field field' raw Ht Hraw Hn Hk).
  - unfold energy_post_process.
    rewrite (clean_consumption_normalized _ _ field field' raw Ht Hraw Hn Hk).
    assert (Hne : u "contract_power" <> u "consumption_kwh") by discriminate.
    destruct (fields extraction !! u "contract_power") as [power|];
      [|exact Hk].
    destruct (raw_value power) as [[|c r]|]; try exact Hk.
    destruct (normalized_value power) as [[|d n]|]; try exact Hk.
    destruct (negb (contains (lower (c :: r)) (u "kva"))); [|exact Hk].
    cbn [set_field fields]. rewrite lookup_insert_ne by exact Hne. exact Hk.
Qed.

Lemma consumption_post_process_stable_example :
  water_post_process water_extraction water_invoice = water_extraction
  /\ fields (energy_post_process water_extraction water_invoice)
       !! u "consumption_kwh"
     = Some consumption_normalized.
Proof.
  destruct (@consumption_post_process_stable no_dates water_extraction
              water_invoice consumption_raw consumption_normalized
              (u "8 m3") eq_refl eq_refl eq_refl) as [Hwater Henergy].
  split; [apply Hwater | apply Henergy]; vm_compute; reflexivity.
Defined.
